(** * Binomial.py: Cox-Ross-Rubinstein lattice pricer

    A shallow embedding of [src/Binomial.py] and the properties of its
    price lattice, value lattice and exercise flags.

    Numbers: the program computes with numpy float64.  Here a float is a
    real number ([R]); rounding and overflow are not modelled.  The two
    places where numpy leaves the reals without raising (square root of a
    negative number, division by zero) produce [NonFinite], numpy's inf
    or nan.  Python's own [float / int] raises [ZeroDivisionError].

    A second model of the same code, on [float64], keeps inf and nan apart
    and follows them through the lattice; on finite factors and
    probability the two models agree. *)

From Stdlib Require Import Reals Lra ZArith Lia String List.
From stdpp Require Import gmap strings.

Local Open Scope Z_scope.

(** ** Python errors and the error monad *)

Inductive exn : Set :=
| ZeroDivisionError
| KeyError.

Inductive result (A : Type) : Type :=
| Ok (a : A)
| Raise (e : exn).

Arguments Ok {A} a.
Arguments Raise {A} e.

Definition bind {A B : Type} (m : result A) (k : A -> result B) : result B :=
  match m with
  | Ok a => k a
  | Raise e => Raise e
  end.

Notation "'let*' x := m 'in' k" := (bind m (fun x => k))
  (at level 10, x name, m at level 100, k at level 200).

(** ** Dictionaries keyed by [(i, j)] *)

Abbreviation dict V := (gmap (Z * Z) V).

(** [d[k]]: a missing key raises [KeyError]. *)
Definition getitem {V : Type} (d : dict V) (k : Z * Z) : result V :=
  match d !! k with
  | Some v => Ok v
  | None => Raise KeyError
  end.

(** ** Loops *)

(** [range(lo, hi)] *)
Definition py_range (lo hi : Z) : list Z :=
  map (fun k => lo + Z.of_nat k) (seq 0 (Z.to_nat (hi - lo))).

(** [arange(start, stop, -1)] *)
Definition arange_down (start stop : Z) : list Z :=
  map (fun k => start - Z.of_nat k) (seq 0 (Z.to_nat (start - stop))).

(** [for x in l: s = body(x, s)], stopping at the first exception. *)
Fixpoint for_each {St : Type} (l : list Z) (body : Z -> St -> result St)
    (s : St) : result St :=
  match l with
  | [] => Ok s
  | x :: l' => let* s' := body x s in for_each l' body s'
  end.

(** ** Floats *)

Inductive npfloat : Type :=
| Real (x : R)
| NonFinite.

Definition np_map (f : R -> R) (a : npfloat) : npfloat :=
  match a with
  | Real x => Real (f x)
  | NonFinite => NonFinite
  end.

Definition np_map2 (f : R -> R -> R) (a b : npfloat) : npfloat :=
  match a, b with
  | Real x, Real y => Real (f x y)
  | _, _ => NonFinite
  end.

(** numpy [sqrt]: nan (with a warning, no exception) below zero. *)
Definition np_sqrt (x : R) : npfloat :=
  if Rlt_dec x 0 then NonFinite else Real (sqrt x).

(** numpy float64 division: inf or nan (with a warning, no exception) when
    the divisor is zero. *)
Definition np_div (a b : npfloat) : npfloat :=
  match a, b with
  | Real x, Real y => if Req_dec_T y 0 then NonFinite else Real (x / y)
  | _, _ => NonFinite
  end.

(** Python's builtin [max(a, b)]: [b] when [b > a], else [a]. *)
Definition py_max (a b : R) : R :=
  if Rgt_dec b a then b else a.

(** ** class BinomialTree *)

Record BinomialTree : Type := {
  self_steps : Z;
  self_delta_time : R;
  self_strike : R;
  self_current_price : R;
  self_volatility : R;
  self_interest_rate : R;
  self_american_or_european : string;
  self_up : npfloat;
  self_down : npfloat;
  self_risk_neutral_probability : npfloat
}.

Definition up_down (volatility delta_time : R) : npfloat * npfloat :=
  let up := np_map exp (np_map (Rmult volatility) (np_sqrt delta_time)) in
  let down := np_map exp (np_map (Rmult (- volatility)) (np_sqrt delta_time)) in
  (up, down).

Definition risk_neutral_probability
    (interest_rate dividend_yield delta_time : R) (up down : npfloat)
    (volatility : R) : npfloat :=
  let q :=
    np_div
      (np_map2 Rminus
         (Real (exp ((interest_rate - dividend_yield) * delta_time))) down)
      (np_map2 Rminus up down) in
  q.

(** [time_to_maturity / steps] on Python numbers. *)
Definition py_truediv (a : R) (n : Z) : result R :=
  if n =? 0 then Raise ZeroDivisionError else Ok (a / IZR n)%R.

(** [BinomialTree.__init__] *)
Definition BinomialTree_init
    (steps : Z) (time_to_maturity strike current_price volatility
     interest_rate dividend_yield : R) (american_or_european : string)
    : result BinomialTree :=
  let* delta_time := py_truediv time_to_maturity steps in
  let '(up, down) := up_down volatility delta_time in
  let q := risk_neutral_probability interest_rate dividend_yield delta_time
             up down volatility in
  Ok {| self_steps := steps;
        self_delta_time := delta_time;
        self_strike := strike;
        self_current_price := current_price;
        self_volatility := volatility;
        self_interest_rate := interest_rate;
        self_american_or_european := american_or_european;
        self_up := up;
        self_down := down;
        self_risk_neutral_probability := q |}.

(** ** The price lattice (lines 70-80 and 117-127, the same text) *)

Definition price_node (up down : R) (i j : Z) (S : dict R) : result (dict R) :=
  if 0 <? j then
    let* s := getitem S (i - 1, j - 1) in Ok (<[(i, j) := (s * up)%R]> S)
  else
    let* s := getitem S (i - 1, 0) in Ok (<[(i, 0) := (s * down)%R]> S).

Definition price_lattice (current_price up down : R) (steps : Z)
    : result (dict R) :=
  let S : dict R := <[(0, 0) := current_price]> ∅ in
  for_each (py_range 1 (steps + 1))
    (fun i => for_each (py_range 0 (i + 1)) (price_node up down i)) S.

(** ** The value lattice and the exercise flags (lines 83-99 and 130-146)

    The two methods differ in the intrinsic value only: [strike - S[i, j]]
    for puts, [S[i, j] - strike] for calls.  [payoff] is that expression as
    a function of the node's price. *)

Definition put_payoff (strike s : R) : R := (strike - s)%R.
Definition call_payoff (strike s : R) : R := (s - strike)%R.

(** The body of the inner loop, one assignment after the other. *)
Definition value_node (payoff : R -> R) (american_or_european : string)
    (S : dict R) (q : R) (steps : Z) (delta_time interest_rate : R)
    (i j : Z) (st : dict R * dict string) : result (dict R * dict string) :=
  let '(P, exercise) := st in
  let* P :=
    (if i =? steps then
       let* s := getitem S (i, j) in
       Ok (<[(i, j) := py_max (payoff s) 0]> P)
     else
       let* a := getitem P (i + 1, j + 1) in
       let* b := getitem P (i + 1, j) in
       Ok (<[(i, j) := (exp (- interest_rate * delta_time)
                        * (q * a + (1 - q) * b))%R]> P)) in
  let* v := getitem P (i, j) in
  let P := <[(i, j) := py_max v 0]> P in
  let* v := getitem P (i, j) in
  let* s := getitem S (i, j) in
  let exercise :=
    <[(i, j) := if Rgt_dec v (payoff s) then "no" else "yes"]> exercise in
  if String.eqb american_or_european "A" then
    let* v := getitem P (i, j) in
    let* s := getitem S (i, j) in
    Ok (<[(i, j) := py_max v (payoff s)]> P, exercise)
  else
    Ok (P, exercise).

Definition calculate_all_nodes (payoff : R -> R)
    (american_or_european : string)
    (current_price up down risk_neutral_probability : R) (steps : Z)
    (delta_time interest_rate : R)
    : result (dict R * dict R * dict string) :=
  let q := risk_neutral_probability in
  let* S := price_lattice current_price up down steps in
  let* st :=
    for_each (arange_down steps (-1))
      (fun i =>
         for_each (py_range 0 (i + 1))
           (value_node payoff american_or_european S q steps delta_time
              interest_rate i))
      (∅, ∅) in
  Ok (S, st.1, st.2).

(** The first argument is the one attribute the method reads from [self]. *)
Definition calculate_all_nodes_for_puts (american_or_european : string)
    (strike current_price up down risk_neutral_probability : R) (steps : Z)
    (delta_time interest_rate : R) :=
  calculate_all_nodes (put_payoff strike) american_or_european
    current_price up down risk_neutral_probability steps delta_time
    interest_rate.

Definition calculate_all_nodes_for_calls (american_or_european : string)
    (strike current_price up down risk_neutral_probability : R) (steps : Z)
    (delta_time interest_rate : R) :=
  calculate_all_nodes (call_payoff strike) american_or_european
    current_price up down risk_neutral_probability steps delta_time
    interest_rate.

(** What [run] leaves in [self]: [(put_S, put_P, put_exercise)] and
    [(call_S, call_P, call_exercise)]. *)
Record run_results : Type := {
  put_S : dict R;
  put_P : dict R;
  put_exercise : dict string;
  call_S : dict R;
  call_P : dict R;
  call_exercise : dict string
}.

(** The derived constants when all three are real numbers. *)
Definition real_constants (self : BinomialTree) : option (R * R * R) :=
  match self_up self, self_down self, self_risk_neutral_probability self with
  | Real u, Real d, Real p => Some (u, d, p)
  | _, _, _ => None
  end.

(** [run] on a pricer whose derived constants are real numbers.  With an
    inf or nan among them the float run goes on all the same and carries
    it through the lattice; that run is outside the real-number model and
    is [None] here.  [run_f64] below is [run] on every pricer, and
    [run_f64_finite] relates the two. *)
Definition run (self : BinomialTree) : option (result run_results) :=
  match real_constants self with
  | None => None
  | Some (u, d, p) =>
      Some (
        let* put :=
          calculate_all_nodes_for_puts (self_american_or_european self)
            (self_strike self) (self_current_price self) u d p
            (self_steps self) (self_delta_time self)
            (self_interest_rate self) in
        let* call :=
          calculate_all_nodes_for_calls (self_american_or_european self)
            (self_strike self) (self_current_price self) u d p
            (self_steps self) (self_delta_time self)
            (self_interest_rate self) in
        Ok {| put_S := put.1.1; put_P := put.1.2; put_exercise := put.2;
              call_S := call.1.1; call_P := call.1.2;
              call_exercise := call.2 |})
  end.

(** * The program on float64 values with inf and nan

    The same code on a number type that keeps numpy's special values
    apart.  Rounding and overflow are still not modelled: an operation on
    finite numbers that is defined over the reals returns its real
    result.  The functions above are this model restricted to finite
    factors and probability (see [calculate_all_nodes_f64_finite] and
    [run_f64_finite] below). *)

Inductive float64 : Type :=
| Fin (x : R)
| PInf
| NInf
| NaN.

(** The infinity with the sign of [x]; nan for [x = 0] ([0 * inf]). *)
Definition signed_inf (x : R) : float64 :=
  if Req_dec_T x 0 then NaN else if Rlt_dec 0 x then PInf else NInf.

Definition fadd (a b : float64) : float64 :=
  match a, b with
  | NaN, _ | _, NaN => NaN
  | Fin x, Fin y => Fin (x + y)
  | PInf, NInf | NInf, PInf => NaN
  | PInf, _ | _, PInf => PInf
  | NInf, _ | _, NInf => NInf
  end.

Definition fsub (a b : float64) : float64 :=
  match a, b with
  | NaN, _ | _, NaN => NaN
  | Fin x, Fin y => Fin (x - y)
  | PInf, PInf | NInf, NInf => NaN
  | PInf, _ | _, NInf => PInf
  | NInf, _ | _, PInf => NInf
  end.

Definition fmul (a b : float64) : float64 :=
  match a, b with
  | NaN, _ | _, NaN => NaN
  | Fin x, Fin y => Fin (x * y)
  | Fin x, PInf | PInf, Fin x => signed_inf x
  | Fin x, NInf | NInf, Fin x => signed_inf (- x)
  | PInf, PInf | NInf, NInf => PInf
  | PInf, NInf | NInf, PInf => NInf
  end.

(** Division.  A zero divisor is [+0.0], as the difference [up - down] of
    two equal floats is. *)
Definition fdiv (a b : float64) : float64 :=
  match a, b with
  | NaN, _ | _, NaN => NaN
  | Fin x, Fin y => if Req_dec_T y 0 then signed_inf x else Fin (x / y)
  | Fin _, _ => Fin 0
  | _, Fin y => if Rlt_dec y 0 then fsub (Fin 0) a else a
  | _, _ => NaN
  end.

Definition fexp (a : float64) : float64 :=
  match a with
  | Fin x => Fin (exp x)
  | PInf => PInf
  | NInf => Fin 0
  | NaN => NaN
  end.

Definition fsqrt (a : float64) : float64 :=
  match a with
  | Fin x => if Rlt_dec x 0 then NaN else Fin (sqrt x)
  | PInf => PInf
  | NInf | NaN => NaN
  end.

(** [a > b]; false as soon as one side is nan. *)
Definition fgt (a b : float64) : bool :=
  match a, b with
  | NaN, _ | _, NaN => false
  | Fin x, Fin y => if Rgt_dec x y then true else false
  | PInf, PInf => false
  | PInf, _ => true
  | _, PInf => false
  | NInf, _ => false
  | _, NInf => true
  end.

(** [a >= b]; false as soon as one side is nan. *)
Definition fge (a b : float64) : bool :=
  match a, b with
  | NaN, _ | _, NaN => false
  | Fin x, Fin y => if Rge_dec x y then true else false
  | PInf, _ | _, NInf => true
  | _, _ => false
  end.

(** Python's builtin [max(a, b)] on floats: [b] when [b > a], else [a];
    so [max(nan, b)] is nan. *)
Definition fmax (a b : float64) : float64 :=
  if fgt b a then b else a.

Record BinomialTree_f64 : Type := {
  f64_steps : Z;
  f64_delta_time : R;
  f64_strike : R;
  f64_current_price : R;
  f64_volatility : R;
  f64_interest_rate : R;
  f64_american_or_european : string;
  f64_up : float64;
  f64_down : float64;
  f64_risk_neutral_probability : float64
}.

Definition up_down_f64 (volatility delta_time : R) : float64 * float64 :=
  let up := fexp (fmul (Fin volatility) (fsqrt (Fin delta_time))) in
  let down := fexp (fmul (Fin (- volatility)) (fsqrt (Fin delta_time))) in
  (up, down).

Definition risk_neutral_probability_f64
    (interest_rate dividend_yield delta_time : R) (up down : float64)
    (volatility : R) : float64 :=
  let q :=
    fdiv
      (fsub (fexp (Fin ((interest_rate - dividend_yield) * delta_time))) down)
      (fsub up down) in
  q.

Definition BinomialTree_init_f64
    (steps : Z) (time_to_maturity strike current_price volatility
     interest_rate dividend_yield : R) (american_or_european : string)
    : result BinomialTree_f64 :=
  let* delta_time := py_truediv time_to_maturity steps in
  let '(up, down) := up_down_f64 volatility delta_time in
  let q := risk_neutral_probability_f64 interest_rate dividend_yield
             delta_time up down volatility in
  Ok {| f64_steps := steps;
        f64_delta_time := delta_time;
        f64_strike := strike;
        f64_current_price := current_price;
        f64_volatility := volatility;
        f64_interest_rate := interest_rate;
        f64_american_or_european := american_or_european;
        f64_up := up;
        f64_down := down;
        f64_risk_neutral_probability := q |}.

Definition price_node_f64 (up down : float64) (i j : Z) (S : dict float64)
    : result (dict float64) :=
  if 0 <? j then
    let* s := getitem S (i - 1, j - 1) in Ok (<[(i, j) := fmul s up]> S)
  else
    let* s := getitem S (i - 1, 0) in Ok (<[(i, 0) := fmul s down]> S).

Definition price_lattice_f64 (current_price : R) (up down : float64)
    (steps : Z) : result (dict float64) :=
  let S : dict float64 := <[(0, 0) := Fin current_price]> ∅ in
  for_each (py_range 1 (steps + 1))
    (fun i => for_each (py_range 0 (i + 1)) (price_node_f64 up down i)) S.

Definition put_payoff_f64 (strike : R) (s : float64) : float64 :=
  fsub (Fin strike) s.
Definition call_payoff_f64 (strike : R) (s : float64) : float64 :=
  fsub s (Fin strike).

Definition value_node_f64 (payoff : float64 -> float64)
    (american_or_european : string) (S : dict float64) (q : float64)
    (steps : Z) (delta_time interest_rate : R) (i j : Z)
    (st : dict float64 * dict string)
    : result (dict float64 * dict string) :=
  let '(P, exercise) := st in
  let* P :=
    (if i =? steps then
       let* s := getitem S (i, j) in
       Ok (<[(i, j) := fmax (payoff s) (Fin 0)]> P)
     else
       let* a := getitem P (i + 1, j + 1) in
       let* b := getitem P (i + 1, j) in
       Ok (<[(i, j) := fmul (Fin (exp (- interest_rate * delta_time)))
                         (fadd (fmul q a) (fmul (fsub (Fin 1) q) b))]> P)) in
  let* v := getitem P (i, j) in
  let P := <[(i, j) := fmax v (Fin 0)]> P in
  let* v := getitem P (i, j) in
  let* s := getitem S (i, j) in
  let exercise :=
    <[(i, j) := if fgt v (payoff s) then "no" else "yes"]> exercise in
  if String.eqb american_or_european "A" then
    let* v := getitem P (i, j) in
    let* s := getitem S (i, j) in
    Ok (<[(i, j) := fmax v (payoff s)]> P, exercise)
  else
    Ok (P, exercise).

Definition calculate_all_nodes_f64 (payoff : float64 -> float64)
    (american_or_european : string) (current_price : R)
    (up down risk_neutral_probability : float64) (steps : Z)
    (delta_time interest_rate : R)
    : result (dict float64 * dict float64 * dict string) :=
  let q := risk_neutral_probability in
  let* S := price_lattice_f64 current_price up down steps in
  let* st :=
    for_each (arange_down steps (-1))
      (fun i =>
         for_each (py_range 0 (i + 1))
           (value_node_f64 payoff american_or_european S q steps delta_time
              interest_rate i))
      (∅, ∅) in
  Ok (S, st.1, st.2).

Definition calculate_all_nodes_for_puts_f64 (american_or_european : string)
    (strike current_price : R) (up down risk_neutral_probability : float64)
    (steps : Z) (delta_time interest_rate : R) :=
  calculate_all_nodes_f64 (put_payoff_f64 strike) american_or_european
    current_price up down risk_neutral_probability steps delta_time
    interest_rate.

Definition calculate_all_nodes_for_calls_f64 (american_or_european : string)
    (strike current_price : R) (up down risk_neutral_probability : float64)
    (steps : Z) (delta_time interest_rate : R) :=
  calculate_all_nodes_f64 (call_payoff_f64 strike) american_or_european
    current_price up down risk_neutral_probability steps delta_time
    interest_rate.

Record run_results_f64 : Type := {
  f64_put_S : dict float64;
  f64_put_P : dict float64;
  f64_put_exercise : dict string;
  f64_call_S : dict float64;
  f64_call_P : dict float64;
  f64_call_exercise : dict string
}.

(** [run], whatever the derived constants are. *)
Definition run_f64 (self : BinomialTree_f64) : result run_results_f64 :=
  let* put :=
    calculate_all_nodes_for_puts_f64 (f64_american_or_european self)
      (f64_strike self) (f64_current_price self) (f64_up self)
      (f64_down self) (f64_risk_neutral_probability self) (f64_steps self)
      (f64_delta_time self) (f64_interest_rate self) in
  let* call :=
    calculate_all_nodes_for_calls_f64 (f64_american_or_european self)
      (f64_strike self) (f64_current_price self) (f64_up self)
      (f64_down self) (f64_risk_neutral_probability self) (f64_steps self)
      (f64_delta_time self) (f64_interest_rate self) in
  Ok {| f64_put_S := put.1.1; f64_put_P := put.1.2;
        f64_put_exercise := put.2;
        f64_call_S := call.1.1; f64_call_P := call.1.2;
        f64_call_exercise := call.2 |}.

(** What a node keeps in the float64 model. *)
Definition node_flag_f64 (payoff : float64 -> float64) (s v : float64)
    : string :=
  if fgt v (payoff s) then "no" else "yes".

Definition node_stored_f64 (payoff : float64 -> float64) (style : string)
    (s v : float64) : float64 :=
  if String.eqb style "A" then fmax v (payoff s) else v.

(** ** From one model to the other *)

(** A float64 as the constructor above sees it. *)
Definition coarsen (a : float64) : npfloat :=
  match a with
  | Fin x => Real x
  | _ => NonFinite
  end.

Definition coarsen_tree (self : BinomialTree_f64) : BinomialTree :=
  {| self_steps := f64_steps self;
     self_delta_time := f64_delta_time self;
     self_strike := f64_strike self;
     self_current_price := f64_current_price self;
     self_volatility := f64_volatility self;
     self_interest_rate := f64_interest_rate self;
     self_american_or_european := f64_american_or_european self;
     self_up := coarsen (f64_up self);
     self_down := coarsen (f64_down self);
     self_risk_neutral_probability :=
       coarsen (f64_risk_neutral_probability self) |}.

Definition result_map {A B : Type} (f : A -> B) (m : result A) : result B :=
  match m with
  | Ok a => Ok (f a)
  | Raise e => Raise e
  end.

(** Real results read as float64 results. *)
Definition lift_state (st : dict R * dict string)
    : dict float64 * dict string :=
  (Fin <$> st.1, st.2).

Definition lift_lattice (l : dict R * dict R * dict string)
    : dict float64 * dict float64 * dict string :=
  (Fin <$> l.1.1, Fin <$> l.1.2, l.2).

Definition lift_results (res : run_results) : run_results_f64 :=
  {| f64_put_S := Fin <$> put_S res;
     f64_put_P := Fin <$> put_P res;
     f64_put_exercise := put_exercise res;
     f64_call_S := Fin <$> call_S res;
     f64_call_P := Fin <$> call_P res;
     f64_call_exercise := call_exercise res |}.

(** * Definitions for the statements *)

(** ** The price lattice in closed form *)

Definition closed_price (S0 u d : R) (i j : Z) : R :=
  (S0 * u ^ Z.to_nat j * d ^ Z.to_nat (i - j))%R.

(** [S] holds exactly the rows below [n] and the first [m] nodes of row
    [n], each with its closed-form price. *)
Definition price_rows (S0 u d : R) (n m : Z) (S : dict R) : Prop :=
  forall i j : Z,
    S !! (i, j) =
    if decide (0 <= j <= i /\ (i < n \/ (i = n /\ j < m)))
    then Some (closed_price S0 u d i j) else None.

(** ** The value lattice as a recursion on the distance to maturity *)

(** What the node keeps after the floor, the flag and the override. *)
Definition node_flag (payoff : R -> R) (s v : R) : string :=
  if Rgt_dec v (payoff s) then "no" else "yes".

Definition node_stored (payoff : R -> R) (style : string) (s v : R) : R :=
  if String.eqb style "A" then py_max v (payoff s) else v.

Section ValueModel.
Variables (payoff : R -> R) (style : string).
Variables (S0 u d q : R) (steps : Z) (dt r : R).

(** The floored value of node [(i, j)], [k] steps before maturity, from
    the stored values of its two successors. *)
Fixpoint floored_value (k : nat) (i j : Z) : R :=
  py_max
    match k with
    | O => py_max (payoff (closed_price S0 u d i j)) 0
    | S k' =>
        (exp (- r * dt)
         * (q * node_stored payoff style (closed_price S0 u d (i + 1) (j + 1))
                  (floored_value k' (i + 1) (j + 1))
            + (1 - q) * node_stored payoff style (closed_price S0 u d (i + 1) j)
                          (floored_value k' (i + 1) j)))%R
    end 0.

Definition floor_at (i j : Z) : R :=
  floored_value (Z.to_nat (steps - i)) i j.

Definition value_at (i j : Z) : R :=
  node_stored payoff style (closed_price S0 u d i j) (floor_at i j).

Definition flag_at (i j : Z) : string :=
  node_flag payoff (closed_price S0 u d i j) (floor_at i j).

(** [P] and [exercise] hold exactly the rows [n+1 .. steps] and the first
    [m] nodes of row [n]. *)
Definition value_rows (n m : Z) (P : dict R) (ex : dict string) : Prop :=
  forall i j : Z,
    let here := 0 <= j <= i /\ i <= steps /\ (n < i \/ (i = n /\ j < m)) in
    P !! (i, j) = (if decide here then Some (value_at i j) else None)
    /\ ex !! (i, j) = (if decide here then Some (flag_at i j) else None).

End ValueModel.

(** ** Reading a result *)

Definition lattice := (dict R * dict R * dict string)%type.

Definition price_of (res : result lattice) (i j : Z) : option R :=
  match res with
  | Ok (prices, _, _) => prices !! (i, j)
  | Raise _ => None
  end.

Definition value_of (res : result lattice) (i j : Z) : option R :=
  match res with
  | Ok (_, P, _) => P !! (i, j)
  | Raise _ => None
  end.

Definition flag_of (res : result lattice) (i j : Z) : option string :=
  match res with
  | Ok (_, _, exercise) => exercise !! (i, j)
  | Raise _ => None
  end.

Definition in_lattice (steps i j : Z) : Prop := 0 <= j <= i /\ i <= steps.

(** ** The properties of the specification, in its words *)

(** The backward-induction definition of a value lattice, without
    override: terminal nodes hold the floored payoff, interior nodes the
    floored discounted expectation of their two successors. *)
Definition backward_induction (payoff : R -> R) (p disc : R) (steps : Z)
    (res : result lattice) : Prop :=
  (forall j : Z,
      0 <= j <= steps ->
      exists s : R,
        price_of res steps j = Some s
        /\ value_of res steps j = Some (Rmax (payoff s) 0))
  /\ (forall i j : Z,
         0 <= j <= i -> i < steps ->
         exists a b : R,
           value_of res (i + 1) (j + 1) = Some a
           /\ value_of res (i + 1) j = Some b
           /\ value_of res i j
              = Some (Rmax (disc * (p * a + (1 - p) * b))%R 0)).

(** [v] is the floored value of node [(i, j)] before any override: the
    floored payoff at maturity, the floored discounted continuation value
    before. *)
Definition floored_at (payoff : R -> R) (p disc : R) (steps : Z)
    (res : result lattice) (i j : Z) (s v : R) : Prop :=
  (i = steps /\ v = Rmax (payoff s) 0)
  \/ (i < steps
      /\ exists a b : R,
           value_of res (i + 1) (j + 1) = Some a
           /\ value_of res (i + 1) j = Some b
           /\ v = Rmax (disc * (p * a + (1 - p) * b))%R 0).

(** The flags of the program: ["no"] is hold, ["yes"] is exercise. *)
Definition hold : string := "no".
Definition exercise : string := "yes".

Definition exercise_flag_rule (payoff : R -> R) (style : string) (p disc : R)
    (steps : Z) (res : result lattice) (i j : Z) : Prop :=
  exists (s v : R) (flag : string),
    price_of res i j = Some s
    /\ floored_at payoff p disc steps res i j s v
    /\ flag_of res i j = Some flag
    /\ (flag = hold <-> (v > payoff s)%R)
    /\ (flag = exercise <-> ~ (v > payoff s)%R)
    /\ (style = "A"%string -> flag = exercise ->
        value_of res i j = Some (payoff s)).

(** ** The nodes of a lattice, row by row *)

Definition lattice_row (i : nat) : list (Z * Z) :=
  (fun j => (Z.of_nat i, j)) <$> seqZ 0 (Z.of_nat i + 1).

Fixpoint lattice_nodes (n : nat) : list (Z * Z) :=
  match n with
  | O => lattice_row 0
  | S n' => lattice_nodes n' ++ lattice_row (S n')
  end.

(** * Lemmas *)

(** ** Loops: ranges and invariants *)

Lemma py_range_nil (lo hi : Z) : hi <= lo -> py_range lo hi = [].
Proof.
  intros H. unfold py_range.
  replace (Z.to_nat (hi - lo)) with 0%nat by lia. reflexivity.
Qed.

Lemma py_range_cons (lo hi : Z) :
  lo < hi -> py_range lo hi = lo :: py_range (lo + 1) hi.
Proof.
  intros H. unfold py_range.
  replace (Z.to_nat (hi - lo)) with (S (Z.to_nat (hi - (lo + 1)))) by lia.
  cbn [seq map]. f_equal; [lia|].
  rewrite <- seq_shift, map_map.
  apply map_ext. intros k. lia.
Qed.

Lemma arange_down_nil (start stop : Z) :
  start <= stop -> arange_down start stop = [].
Proof.
  intros H. unfold arange_down.
  replace (Z.to_nat (start - stop)) with 0%nat by lia. reflexivity.
Qed.

Lemma arange_down_cons (start stop : Z) :
  stop < start ->
  arange_down start stop = start :: arange_down (start - 1) stop.
Proof.
  intros H. unfold arange_down.
  replace (Z.to_nat (start - stop)) with (S (Z.to_nat (start - 1 - stop)))
    by lia.
  cbn [seq map]. f_equal; [lia|].
  rewrite <- seq_shift, map_map.
  apply map_ext. intros k. lia.
Qed.

Section LoopInvariants.
Context {St : Type} (Inv : Z -> St -> Prop) (body : Z -> St -> result St).

(** An ascending loop: [Inv k] holds before the iteration at [k]. *)
Lemma for_each_range_inv (lo hi : Z) (s : St) :
  lo <= hi ->
  Inv lo s ->
  (forall k t, lo <= k < hi -> Inv k t ->
               exists t', body k t = Ok t' /\ Inv (k + 1) t') ->
  exists s', for_each (py_range lo hi) body s = Ok s' /\ Inv hi s'.
Proof.
  intros Hle. remember (Z.to_nat (hi - lo)) as n eqn:Hn.
  revert lo s Hle Hn. induction n as [|n IH]; intros lo s Hle Hn H0 Hstep.
  - assert (lo = hi) as -> by lia.
    rewrite py_range_nil by lia. exists s. split; [reflexivity|assumption].
  - rewrite py_range_cons by lia. cbn [for_each].
    destruct (Hstep lo s ltac:(lia) H0) as (t & -> & Ht). cbn [bind].
    apply IH; [lia|lia|assumption|].
    intros k t' Hk. apply Hstep. lia.
Qed.

(** A descending loop: [Inv k] holds before the iteration at [k]. *)
Lemma for_each_arange_inv (start stop : Z) (s : St) :
  stop <= start ->
  Inv start s ->
  (forall k t, stop < k <= start -> Inv k t ->
               exists t', body k t = Ok t' /\ Inv (k - 1) t') ->
  exists s', for_each (arange_down start stop) body s = Ok s' /\ Inv stop s'.
Proof.
  intros Hle. remember (Z.to_nat (start - stop)) as n eqn:Hn.
  revert start s Hle Hn. induction n as [|n IH]; intros start s Hle Hn H0 Hstep.
  - assert (start = stop) as -> by lia.
    rewrite arange_down_nil by lia. exists s. split; [reflexivity|assumption].
  - rewrite arange_down_cons by lia. cbn [for_each].
    destruct (Hstep start s ltac:(lia) H0) as (t & -> & Ht). cbn [bind].
    apply IH; [lia|lia|assumption|].
    intros k t' Hk. apply Hstep. lia.
Qed.
End LoopInvariants.

(** ** The price lattice *)

Lemma closed_price_root (S0 u d : R) : closed_price S0 u d 0 0 = S0.
Proof.
  unfold closed_price. rewrite Z.sub_diag. change (Z.to_nat 0) with 0%nat.
  rewrite pow_O. ring.
Qed.

Lemma closed_price_up (S0 u d : R) (i j : Z) :
  0 <= j <= i ->
  closed_price S0 u d (i + 1) (j + 1) = (closed_price S0 u d i j * u)%R.
Proof.
  intros H. unfold closed_price.
  replace (Z.to_nat (j + 1)) with (S (Z.to_nat j)) by lia.
  replace (i + 1 - (j + 1)) with (i - j) by lia.
  cbn [pow]. ring.
Qed.

Lemma closed_price_down (S0 u d : R) (i j : Z) :
  0 <= j <= i ->
  closed_price S0 u d (i + 1) j = (closed_price S0 u d i j * d)%R.
Proof.
  intros H. unfold closed_price.
  replace (Z.to_nat (i + 1 - j)) with (S (Z.to_nat (i - j))) by lia.
  cbn [pow]. ring.
Qed.

Lemma price_rows_next (S0 u d : R) (n : Z) (S : dict R) :
  price_rows S0 u d n (n + 1) S -> price_rows S0 u d (n + 1) 0 S.
Proof.
  intros H i j. rewrite H.
  repeat case_decide; try reflexivity; lia.
Qed.

Lemma price_rows_init (S0 u d : R) :
  price_rows S0 u d 1 0 (<[(0, 0) := S0]> ∅).
Proof.
  intros i j. destruct (decide ((0, 0) = (i, j))) as [E|NE].
  - inversion E; subst. rewrite lookup_insert_eq.
    rewrite decide_True by lia. now rewrite closed_price_root.
  - rewrite lookup_insert_ne by assumption. rewrite lookup_empty.
    rewrite decide_False; [reflexivity|].
    intros [? ?]. apply NE. f_equal; lia.
Qed.

Lemma price_node_step (S0 u d : R) (i j : Z) (S : dict R) :
  1 <= i -> 0 <= j <= i ->
  price_rows S0 u d i j S ->
  exists S', price_node u d i j S = Ok S' /\ price_rows S0 u d i (j + 1) S'.
Proof.
  intros Hi Hj HS. unfold price_node, getitem.
  destruct (0 <? j) eqn:Ej.
  - apply Z.ltb_lt in Ej. rewrite HS, decide_True by lia. cbn [bind].
    eexists; split; [reflexivity|]. intros a b.
    destruct (decide ((i, j) = (a, b))) as [E|NE].
    + inversion E; subst a b. rewrite lookup_insert_eq, decide_True by lia.
      f_equal. rewrite <- closed_price_up by lia.
      unfold closed_price. repeat f_equal; lia.
    + rewrite lookup_insert_ne by assumption. rewrite HS.
      repeat case_decide; try reflexivity; try lia.
      exfalso. apply NE. f_equal; lia.
  - apply Z.ltb_ge in Ej. assert (j = 0) as -> by lia.
    rewrite HS, decide_True by lia. cbn [bind].
    eexists; split; [reflexivity|]. intros a b.
    destruct (decide ((i, 0) = (a, b))) as [E|NE].
    + inversion E; subst a b. rewrite lookup_insert_eq, decide_True by lia.
      f_equal. rewrite <- closed_price_down by lia.
      unfold closed_price. repeat f_equal; lia.
    + rewrite lookup_insert_ne by assumption. rewrite HS.
      repeat case_decide; try reflexivity; try lia.
      exfalso. apply NE. f_equal; lia.
Qed.

(** The forward loops never raise, and fill rows [0 .. max steps 0]. *)
Lemma price_lattice_rows (S0 u d : R) (steps : Z) :
  exists S, price_lattice S0 u d steps = Ok S
            /\ price_rows S0 u d (Z.max steps 0 + 1) 0 S.
Proof.
  unfold price_lattice.
  destruct (Z.le_gt_cases 0 steps) as [Hs|Hs].
  - rewrite Z.max_l by lia.
    apply (for_each_range_inv (fun k S => price_rows S0 u d k 0 S)).
    + lia.
    + apply price_rows_init.
    + intros i S Hi HS.
      destruct (for_each_range_inv (fun j S => price_rows S0 u d i j S)
                  (price_node u d i) 0 (i + 1) S) as (S' & E & HS').
      * lia.
      * assumption.
      * intros j t Hj Ht. apply (price_node_step S0); [lia|lia|assumption].
      * exists S'. split; [assumption|]. now apply price_rows_next.
  - rewrite py_range_nil by lia. rewrite Z.max_r by lia. cbn [for_each].
    eexists; split; [reflexivity|]. apply price_rows_init.
Qed.

(** ** One node of the backward loop *)

Lemma py_max_Rmax (a b : R) : py_max a b = Rmax a b.
Proof.
  unfold py_max, Rmax.
  destruct (Rgt_dec b a), (Rle_dec a b); try reflexivity; lra.
Qed.

Lemma value_node_terminal (payoff : R -> R) (style : string) (S : dict R)
    (q : R) (steps : Z) (dt r : R) (j : Z) (P : dict R) (ex : dict string)
    (s : R) :
  S !! (steps, j) = Some s ->
  let v := py_max (py_max (payoff s) 0) 0 in
  value_node payoff style S q steps dt r steps j (P, ex)
  = Ok (<[(steps, j) := node_stored payoff style s v]> P,
        <[(steps, j) := node_flag payoff s v]> ex).
Proof.
  intros HS v. unfold value_node, getitem, node_stored.
  rewrite Z.eqb_refl, HS. cbn [bind].
  destruct (String.eqb style "A");
    repeat (rewrite lookup_insert_eq; cbn [bind]);
    rewrite !insert_insert_eq; reflexivity.
Qed.

Lemma value_node_interior (payoff : R -> R) (style : string) (S : dict R)
    (q : R) (steps : Z) (dt r : R) (i j : Z) (P : dict R) (ex : dict string)
    (s a b : R) :
  i <> steps ->
  S !! (i, j) = Some s ->
  P !! (i + 1, j + 1) = Some a ->
  P !! (i + 1, j) = Some b ->
  let v := py_max (exp (- r * dt) * (q * a + (1 - q) * b))%R 0 in
  value_node payoff style S q steps dt r i j (P, ex)
  = Ok (<[(i, j) := node_stored payoff style s v]> P,
        <[(i, j) := node_flag payoff s v]> ex).
Proof.
  intros Hi HS Ha Hb v. unfold value_node, getitem, node_stored.
  apply Z.eqb_neq in Hi. rewrite Hi, Ha, Hb, HS. cbn [bind].
  destruct (String.eqb style "A");
    repeat (rewrite lookup_insert_eq; cbn [bind]);
    rewrite !insert_insert_eq; reflexivity.
Qed.

(** ** The backward loops *)

Section Backward.
Variables (payoff : R -> R) (style : string).
Variables (S0 u d q : R) (steps : Z) (dt r : R).

Local Abbreviation Floor := (floor_at payoff style S0 u d q steps dt r).
Local Abbreviation Value := (value_at payoff style S0 u d q steps dt r).
Local Abbreviation Flag := (flag_at payoff style S0 u d q steps dt r).
Local Abbreviation Rows := (value_rows payoff style S0 u d q steps dt r).

Lemma floor_at_terminal (j : Z) :
  Floor steps j
  = py_max (py_max (payoff (closed_price S0 u d steps j)) 0) 0.
Proof. unfold floor_at. rewrite Z.sub_diag. reflexivity. Qed.

Lemma floor_at_interior (i j : Z) :
  i < steps ->
  Floor i j
  = py_max (exp (- r * dt)
            * (q * Value (i + 1) (j + 1) + (1 - q) * Value (i + 1) j))%R 0.
Proof.
  intros Hi. unfold value_at, floor_at.
  replace (Z.to_nat (steps - i)) with (S (Z.to_nat (steps - (i + 1)))) by lia.
  reflexivity.
Qed.

Lemma value_rows_next (n : Z) (P : dict R) (ex : dict string) :
  Rows n (n + 1) P ex -> Rows (n - 1) 0 P ex.
Proof.
  intros H i j. destruct (H i j) as [HP Hex]. cbv zeta in *.
  rewrite HP, Hex. split; repeat case_decide; try reflexivity; lia.
Qed.

Lemma value_rows_init : Rows steps 0 ∅ ∅.
Proof.
  intros i j. cbv zeta. rewrite !lookup_empty.
  rewrite !decide_False by lia. split; reflexivity.
Qed.

Lemma value_node_step (S : dict R) (i j : Z) (P : dict R) (ex : dict string) :
  price_rows S0 u d (Z.max steps 0 + 1) 0 S ->
  0 <= j <= i -> i <= steps ->
  Rows i j P ex ->
  exists P' ex',
    value_node payoff style S q steps dt r i j (P, ex) = Ok (P', ex')
    /\ Rows i (j + 1) P' ex'.
Proof.
  intros HS Hj Hi HP.
  assert (S !! (i, j) = Some (closed_price S0 u d i j)) as Hs.
  { rewrite HS. apply decide_True. lia. }
  assert (value_node payoff style S q steps dt r i j (P, ex)
          = Ok (<[(i, j) := Value i j]> P, <[(i, j) := Flag i j]> ex))
    as ->.
  { destruct (decide (i = steps)) as [->|Hne].
    - rewrite (value_node_terminal _ _ _ _ _ _ _ _ _ _ _ Hs).
      unfold value_at, flag_at. rewrite floor_at_terminal. reflexivity.
    - destruct (HP (i + 1) (j + 1)) as [Ha _].
      destruct (HP (i + 1) j) as [Hb _]. cbv zeta in Ha, Hb.
      rewrite decide_True in Ha by lia. rewrite decide_True in Hb by lia.
      rewrite (value_node_interior _ _ _ _ _ _ _ _ _ _ _ _ _ _ Hne Hs Ha Hb).
      change (Value i j)
        with (node_stored payoff style (closed_price S0 u d i j) (Floor i j)).
      unfold flag_at. rewrite (floor_at_interior i j) by lia.
      reflexivity. }
  do 2 eexists. split; [reflexivity|].
  intros a b. cbv zeta. destruct (HP a b) as [HPa Hexa]. cbv zeta in *.
  destruct (decide ((i, j) = (a, b))) as [E|NE].
  - inversion E; subst a b. rewrite !lookup_insert_eq.
    rewrite !decide_True by lia. split; reflexivity.
  - rewrite !lookup_insert_ne by assumption. rewrite HPa, Hexa.
    split; repeat case_decide; try reflexivity; try lia;
      exfalso; apply NE; f_equal; lia.
Qed.

(** The backward loops never raise, and fill every node of the lattice. *)
Lemma calculate_all_nodes_rows :
  exists S P ex,
    calculate_all_nodes payoff style S0 u d q steps dt r = Ok (S, P, ex)
    /\ price_rows S0 u d (Z.max steps 0 + 1) 0 S
    /\ Rows (-1) 0 P ex.
Proof.
  unfold calculate_all_nodes.
  destruct (price_lattice_rows S0 u d steps) as (S & -> & HS). cbn [bind].
  assert (exists st,
             for_each (arange_down steps (-1))
               (fun i => for_each (py_range 0 (i + 1))
                           (value_node payoff style S q steps dt r i))
               (∅, ∅) = Ok st
             /\ Rows (-1) 0 st.1 st.2) as (st & -> & Hst).
  { destruct (Z.le_gt_cases (-1) steps) as [Hs|Hs].
    - apply (for_each_arange_inv (fun k st => Rows k 0 st.1 st.2)).
      + assumption.
      + apply value_rows_init.
      + intros i st Hi Hst.
        destruct (for_each_range_inv (fun j st => Rows i j st.1 st.2)
                    (value_node payoff style S q steps dt r i) 0 (i + 1) st)
          as (st' & E & Hst').
        * lia.
        * assumption.
        * intros j [P ex] Hj Ht. cbn [fst snd] in Ht.
          destruct (value_node_step S i j P ex HS ltac:(lia) ltac:(lia) Ht)
            as (P' & ex' & E' & H').
          exists (P', ex'). split; assumption.
        * exists st'. split; [assumption|]. now apply value_rows_next.
    - rewrite arange_down_nil by lia. cbn [for_each].
      eexists; split; [reflexivity|]. cbn [fst snd].
      intros i j. cbv zeta. rewrite !lookup_empty.
      rewrite !decide_False by lia. split; reflexivity. }
  cbn [bind]. exists S, st.1, st.2. split; [reflexivity|]. split; assumption.
Qed.
End Backward.

Section Lookup.
Variables (payoff : R -> R) (style : string).
Variables (S0 u d q : R) (steps : Z) (dt r : R).

Let res := calculate_all_nodes payoff style S0 u d q steps dt r.

Lemma calculate_all_nodes_ok : exists l, res = Ok l.
Proof.
  destruct (calculate_all_nodes_rows payoff style S0 u d q steps dt r)
    as (S & P & ex & E & _). exists (S, P, ex). exact E.
Qed.

Lemma price_of_node (i j : Z) :
  in_lattice steps i j -> price_of res i j = Some (closed_price S0 u d i j).
Proof.
  intros [Hj Hi].
  destruct (calculate_all_nodes_rows payoff style S0 u d q steps dt r)
    as (S & P & ex & E & HS & _).
  unfold res. rewrite E. cbn [price_of]. rewrite HS.
  apply decide_True. lia.
Qed.

Lemma value_of_node (i j : Z) :
  in_lattice steps i j ->
  value_of res i j = Some (value_at payoff style S0 u d q steps dt r i j).
Proof.
  intros [Hj Hi].
  destruct (calculate_all_nodes_rows payoff style S0 u d q steps dt r)
    as (S & P & ex & E & _ & HP).
  unfold res. rewrite E. cbn [value_of].
  destruct (HP i j) as [-> _]. apply decide_True. lia.
Qed.

Lemma flag_of_node (i j : Z) :
  in_lattice steps i j ->
  flag_of res i j = Some (flag_at payoff style S0 u d q steps dt r i j).
Proof.
  intros [Hj Hi].
  destruct (calculate_all_nodes_rows payoff style S0 u d q steps dt r)
    as (S & P & ex & E & _ & HP).
  unfold res. rewrite E. cbn [flag_of].
  destruct (HP i j) as [_ ->]. apply decide_True. lia.
Qed.
End Lookup.

(** ** Order properties of the node operations *)

Local Open Scope R_scope.

Ltac py_max_cases :=
  unfold py_max; repeat destruct (Rgt_dec _ _); lra.

Lemma py_max_l (a b : R) : a <= py_max a b.
Proof. py_max_cases. Qed.

Lemma py_max_r (a b : R) : b <= py_max a b.
Proof. py_max_cases. Qed.

Lemma py_max_mono (a a' b b' : R) :
  a <= a' -> b <= b' -> py_max a b <= py_max a' b'.
Proof. intros Ha Hb. py_max_cases. Qed.

Lemma py_max_id (a b : R) : b <= a -> py_max a b = a.
Proof. intros H. py_max_cases. Qed.

Lemma discount_pos (r dt : R) : 0 < exp (- r * dt).
Proof. apply exp_pos. Qed.

(** A discounted expectation is monotone in the successors' values when
    [q] is a probability. *)
Lemma continuation_mono (disc q a a' b b' : R) :
  0 < disc -> 0 <= q <= 1 -> a <= a' -> b <= b' ->
  disc * (q * a + (1 - q) * b) <= disc * (q * a' + (1 - q) * b').
Proof.
  intros Hd Hq Ha Hb. apply Rmult_le_compat_l; [lra|].
  apply Rplus_le_compat; apply Rmult_le_compat_l; lra.
Qed.

Lemma node_stored_european (payoff : R -> R) (style : string) (s v : R) :
  style <> "A"%string -> node_stored payoff style s v = v.
Proof.
  intros H. unfold node_stored.
  apply String.eqb_neq in H. now rewrite H.
Qed.

Lemma node_stored_american (payoff : R -> R) (s v : R) :
  node_stored payoff "A" s v = py_max v (payoff s).
Proof. reflexivity. Qed.

Lemma node_stored_ge (payoff : R -> R) (style : string) (s v : R) :
  v <= node_stored payoff style s v.
Proof.
  unfold node_stored. destruct (String.eqb style "A"); [apply py_max_l|lra].
Qed.

Lemma node_stored_mono (pay pay' : R -> R) (style : string) (s v v' : R) :
  pay s <= pay' s -> v <= v' ->
  node_stored pay style s v <= node_stored pay' style s v'.
Proof.
  intros Hp Hv. unfold node_stored.
  destruct (String.eqb style "A"); [now apply py_max_mono|assumption].
Qed.

Section ValueOrder.
Variables (S0 u d q dt r : R).
Hypothesis Hq : 0 <= q <= 1.

Lemma floored_value_nonneg (payoff : R -> R) (style : string) (k : nat)
    (i j : Z) :
  0 <= floored_value payoff style S0 u d q dt r k i j.
Proof. destruct k; cbn [floored_value]; apply py_max_r. Qed.

(** A larger payoff gives a larger floored value, style by style. *)
Lemma floored_value_mono (pay pay' : R -> R) (style : string) :
  (forall s, pay s <= pay' s) ->
  forall (k : nat) (i j : Z),
    floored_value pay style S0 u d q dt r k i j
    <= floored_value pay' style S0 u d q dt r k i j.
Proof.
  intros Hp. induction k as [|k IH]; intros i j; cbn [floored_value].
  - apply py_max_mono; [|lra]. apply py_max_mono; [apply Hp|lra].
  - apply py_max_mono; [|lra].
    apply continuation_mono; [apply discount_pos|assumption| |];
      apply node_stored_mono; auto.
Qed.

(** The override can only raise the floored value. *)
Lemma floored_value_american (payoff : R -> R) (style : string) :
  style <> "A"%string ->
  forall (k : nat) (i j : Z),
    floored_value payoff style S0 u d q dt r k i j
    <= floored_value payoff "A" S0 u d q dt r k i j.
Proof.
  intros Hs. induction k as [|k IH]; intros i j; cbn [floored_value].
  - lra.
  - apply py_max_mono; [|lra].
    apply continuation_mono; [apply discount_pos|assumption| |];
      rewrite (node_stored_european _ style) by assumption;
      (eapply Rle_trans; [apply IH|apply node_stored_ge]).
Qed.
End ValueOrder.

(** ** Put-call parity on the lattice *)

Lemma terminal_parity (K s : R) :
  py_max (py_max (call_payoff K s) 0) 0 - py_max (py_max (put_payoff K s) 0) 0
  = s - K.
Proof. unfold call_payoff, put_payoff. py_max_cases. Qed.

Lemma continuation_nonneg (disc q a b : R) :
  0 < disc -> 0 <= q <= 1 -> 0 <= a -> 0 <= b ->
  0 <= disc * (q * a + (1 - q) * b).
Proof.
  intros Hd Hq Ha Hb. apply Rmult_le_pos; [lra|].
  apply Rplus_le_le_0_compat; apply Rmult_le_pos; lra.
Qed.

Section Parity.
Variables (K S0 u d q dt r : R) (style : string).
Hypothesis Hq : 0 <= q <= 1.
Hypothesis Hstyle : style <> "A"%string.

Let disc := exp (- r * dt).
Let growth := q * u + (1 - q) * d.

(** Without the override the floor never binds inside the lattice, and
    the difference of the two values is a discounted forward. *)
Lemma floored_value_parity (k : nat) :
  forall i j : Z,
    (0 <= j <= i)%Z ->
    floored_value (call_payoff K) style S0 u d q dt r k i j
    - floored_value (put_payoff K) style S0 u d q dt r k i j
    = disc ^ k * (closed_price S0 u d i j * growth ^ k - K).
Proof.
  induction k as [|k IH]; intros i j Hj; cbn [floored_value pow].
  - rewrite terminal_parity. ring.
  - rewrite !(node_stored_european _ style) by assumption.
    rewrite !py_max_id
      by (apply continuation_nonneg;
          [apply discount_pos|assumption| |]; apply floored_value_nonneg).
    fold disc.
    pose proof (IH (i + 1)%Z (j + 1)%Z ltac:(lia)) as Hu.
    pose proof (IH (i + 1)%Z j ltac:(lia)) as Hd.
    rewrite closed_price_up in Hu by lia.
    rewrite closed_price_down in Hd by lia.
    match goal with
    | |- disc * (q * ?cu + (1 - q) * ?cd)
         - disc * (q * ?pu + (1 - q) * ?pd) = _ =>
        replace (disc * (q * cu + (1 - q) * cd)
                 - disc * (q * pu + (1 - q) * pd))
          with (disc * (q * (cu - pu) + (1 - q) * (cd - pd))) by ring
    end.
    rewrite Hu, Hd. unfold growth. ring.
Qed.
End Parity.

Lemma exp_pow_nat (x : R) (n : nat) : exp x ^ n = exp (INR n * x).
Proof.
  induction n as [|n IH].
  - cbn [pow INR]. rewrite Rmult_0_l, exp_0. reflexivity.
  - rewrite S_INR. cbn [pow]. rewrite IH, <- exp_plus. f_equal. ring.
Qed.

(** ** The constructor *)

Local Open Scope Z_scope.

Lemma BinomialTree_init_zero (T K S0 sigma r qd : R) (style : string) :
  BinomialTree_init 0 T K S0 sigma r qd style = Raise ZeroDivisionError.
Proof. reflexivity. Qed.

Lemma BinomialTree_init_nonzero (steps : Z) (T K S0 sigma r qd : R)
    (style : string) :
  steps <> 0 ->
  let dt := (T / IZR steps)%R in
  BinomialTree_init steps T K S0 sigma r qd style
  = Ok {| self_steps := steps;
          self_delta_time := dt;
          self_strike := K;
          self_current_price := S0;
          self_volatility := sigma;
          self_interest_rate := r;
          self_american_or_european := style;
          self_up := (up_down sigma dt).1;
          self_down := (up_down sigma dt).2;
          self_risk_neutral_probability :=
            risk_neutral_probability r qd dt (up_down sigma dt).1
              (up_down sigma dt).2 sigma |}.
Proof.
  intros H dt. unfold BinomialTree_init, py_truediv.
  apply Z.eqb_neq in H. rewrite H. reflexivity.
Qed.

(** When the probability is a real number, so are the two factors; they
    differ, and the three have their textbook values. *)
Lemma risk_neutral_probability_real (r qd dt sigma p : R) :
  risk_neutral_probability r qd dt (up_down sigma dt).1 (up_down sigma dt).2
    sigma = Real p ->
  let u := exp (sigma * sqrt dt) in
  let d := exp (- sigma * sqrt dt) in
  (up_down sigma dt).1 = Real u /\ (up_down sigma dt).2 = Real d
  /\ (u - d <> 0)%R
  /\ p = ((exp ((r - qd) * dt) - d) / (u - d))%R.
Proof.
  unfold risk_neutral_probability, up_down, np_sqrt. cbn [fst snd].
  destruct (Rlt_dec dt 0); cbn [np_map np_map2 np_div]; [discriminate|].
  destruct (Req_dec_T _ 0) as [E|NE]; [discriminate|].
  intros [= <-]. repeat split. exact NE.
Qed.

Lemma risk_neutral_probability_zero_volatility (r qd dt : R) :
  risk_neutral_probability r qd dt (up_down 0 dt).1 (up_down 0 dt).2 0
  = NonFinite.
Proof.
  unfold risk_neutral_probability, up_down, np_sqrt. cbn [fst snd].
  destruct (Rlt_dec dt 0); cbn [np_map np_map2 np_div]; [reflexivity|].
  destruct (Req_dec_T _ 0) as [E|NE]; [reflexivity|].
  exfalso. apply NE. rewrite Ropp_0, Rmult_0_l. ring.
Qed.

(** ** The results of [calculate_all_nodes] against the specification *)

Section Pricing.
Variables (payoff : R -> R) (style : string).
Variables (S0 u d q : R) (steps : Z) (dt r : R).

Let res := calculate_all_nodes payoff style S0 u d q steps dt r.

Lemma floored_at_node (i j : Z) :
  in_lattice steps i j ->
  floored_at payoff q (exp (- r * dt)) steps res i j
    (closed_price S0 u d i j)
    (floor_at payoff style S0 u d q steps dt r i j).
Proof.
  intros [Hj Hi]. destruct (decide (i = steps)) as [->|Hne].
  - left. split; [reflexivity|].
    rewrite floor_at_terminal, !py_max_Rmax.
    apply Rmax_left, Rmax_r.
  - right. split; [lia|].
    exists (value_at payoff style S0 u d q steps dt r (i + 1) (j + 1)),
           (value_at payoff style S0 u d q steps dt r (i + 1) j).
    unfold res. rewrite !value_of_node by (unfold in_lattice; lia).
    rewrite floor_at_interior, py_max_Rmax by lia. auto.
Qed.

Lemma backward_induction_european :
  style <> "A"%string ->
  backward_induction payoff q (exp (- r * dt)) steps res.
Proof.
  intros Hs. split.
  - intros j Hj. exists (closed_price S0 u d steps j).
    assert (in_lattice steps steps j) as Hin by (unfold in_lattice; lia).
    unfold res. rewrite price_of_node, value_of_node by assumption.
    split; [reflexivity|]. f_equal. unfold value_at.
    rewrite node_stored_european by assumption.
    destruct (floored_at_node steps j Hin) as [[_ ->]|[? _]];
      [reflexivity|lia].
  - intros i j Hj Hi.
    assert (in_lattice steps i j) as Hin by (unfold in_lattice; lia).
    destruct (floored_at_node i j Hin) as [[? _]|(_ & a & b & Ha & Hb & Hv)];
      [lia|].
    exists a, b. split; [assumption|]. split; [assumption|].
    unfold res. rewrite value_of_node by assumption. f_equal.
    unfold value_at. rewrite node_stored_european by assumption.
    exact Hv.
Qed.

Lemma exercise_flag_rule_holds (i j : Z) :
  in_lattice steps i j ->
  exercise_flag_rule payoff style q (exp (- r * dt)) steps res i j.
Proof.
  intros Hin.
  exists (closed_price S0 u d i j),
         (floor_at payoff style S0 u d q steps dt r i j),
         (flag_at payoff style S0 u d q steps dt r i j).
  split; [now apply price_of_node|].
  split; [now apply floored_at_node|].
  split; [now apply flag_of_node|].
  unfold flag_at, node_flag, hold, exercise.
  destruct (Rgt_dec _ _) as [Hgt|Hle].
  - split; [tauto|]. split; [split; [discriminate|tauto]|discriminate].
  - split; [split; [discriminate|tauto]|]. split; [tauto|].
    intros -> _. unfold res. rewrite value_of_node by assumption.
    f_equal. unfold value_at. rewrite node_stored_american.
    revert Hle. generalize (floor_at payoff "A" S0 u d q steps dt r i j).
    intros v Hle. py_max_cases.
Qed.

Lemma value_of_nonneg (i j : Z) :
  in_lattice steps i j ->
  exists v : R, value_of res i j = Some v /\ (0 <= v)%R.
Proof.
  intros Hin. eexists. split; [now apply value_of_node|].
  unfold value_at. eapply Rle_trans; [|apply node_stored_ge].
  unfold floor_at. destruct (Z.to_nat (steps - i)); apply py_max_r.
Qed.
End Pricing.

(** ** Theorems *)

(** C1. In a European-style run (any style string but ["A"]) both value
    lattices satisfy the backward-induction definition: the floored payoff
    at maturity, [strike - S] for the put and [S - strike] for the call,
    and before maturity the floored discounted expectation of the two
    successors, with no override by the intrinsic value. *)
Theorem european_values_by_backward_induction
    (style : string) (strike current_price up down q : R) (steps : Z)
    (delta_time interest_rate : R) :
  style <> "A"%string ->
  backward_induction (fun s => strike - s)%R q
    (exp (- interest_rate * delta_time)) steps
    (calculate_all_nodes_for_puts style strike current_price up down q steps
       delta_time interest_rate)
  /\ backward_induction (fun s => s - strike)%R q
       (exp (- interest_rate * delta_time)) steps
       (calculate_all_nodes_for_calls style strike current_price up down q
          steps delta_time interest_rate).
Proof.
  intros Hs. split.
  - apply (backward_induction_european (put_payoff strike)). exact Hs.
  - apply (backward_induction_european (call_payoff strike)). exact Hs.
Qed.

Lemma european_values_by_backward_induction_witness :
  backward_induction (fun s => 90 - s)%R (1 / 2)
    (exp (- (5 / 100) * (1 / 2))) 4
    (calculate_all_nodes_for_puts "E" 90 100 2 (1 / 2) (1 / 2) 4 (1 / 2)
       (5 / 100))
  /\ backward_induction (fun s => s - 90)%R (1 / 2)
       (exp (- (5 / 100) * (1 / 2))) 4
       (calculate_all_nodes_for_calls "E" 90 100 2 (1 / 2) (1 / 2) 4 (1 / 2)
          (5 / 100)).
Proof.
  apply (european_values_by_backward_induction "E" 90 100 2 (1 / 2) (1 / 2)
           4 (1 / 2) (5 / 100)).
  discriminate.
Defined.

(** C2. At every node [(i, j)] with [0 <= j <= i <= steps] the price
    lattice built by the forward loops of either method holds
    [current_price * up^j * down^(i-j)]. *)
Theorem price_lattice_closed_form
    (style : string) (strike current_price up down q : R) (steps : Z)
    (delta_time interest_rate : R) (i j : Z) :
  0 <= j <= i -> i <= steps ->
  price_of
    (calculate_all_nodes_for_puts style strike current_price up down q steps
       delta_time interest_rate) i j
  = Some (current_price * up ^ Z.to_nat j * down ^ Z.to_nat (i - j))%R
  /\ price_of
       (calculate_all_nodes_for_calls style strike current_price up down q
          steps delta_time interest_rate) i j
     = Some (current_price * up ^ Z.to_nat j * down ^ Z.to_nat (i - j))%R.
Proof.
  intros Hj Hi. split; apply price_of_node; split; assumption.
Qed.

Lemma price_lattice_closed_form_witness :
  price_of
    (calculate_all_nodes_for_puts "E" 90 100 2 (1 / 2) (1 / 2) 4 (1 / 2)
       (5 / 100)) 3 1
  = Some (100 * 2 ^ Z.to_nat 1 * (1 / 2) ^ Z.to_nat (3 - 1))%R
  /\ price_of
       (calculate_all_nodes_for_calls "E" 90 100 2 (1 / 2) (1 / 2) 4 (1 / 2)
          (5 / 100)) 3 1
     = Some (100 * 2 ^ Z.to_nat 1 * (1 / 2) ^ Z.to_nat (3 - 1))%R.
Proof.
  apply (price_lattice_closed_form "E" 90 100 2 (1 / 2) (1 / 2) 4 (1 / 2)
           (5 / 100) 3 1); lia.
Defined.

(** C5, on real factors and probability.  For either payoff and any
    style every node has a flag: hold
    (["no"]) exactly when the floored value of the node, before any
    override, exceeds the intrinsic value, and exercise (["yes"])
    otherwise; under style ["A"] a node flagged exercise stores the
    intrinsic value. *)
Theorem exercise_flags_consistent
    (style : string) (strike current_price up down q : R) (steps : Z)
    (delta_time interest_rate : R) (i j : Z) :
  in_lattice steps i j ->
  exercise_flag_rule (fun s => strike - s)%R style q
    (exp (- interest_rate * delta_time)) steps
    (calculate_all_nodes_for_puts style strike current_price up down q steps
       delta_time interest_rate) i j
  /\ exercise_flag_rule (fun s => s - strike)%R style q
       (exp (- interest_rate * delta_time)) steps
       (calculate_all_nodes_for_calls style strike current_price up down q
          steps delta_time interest_rate) i j.
Proof.
  intros Hin. split.
  - now apply (exercise_flag_rule_holds (put_payoff strike)).
  - now apply (exercise_flag_rule_holds (call_payoff strike)).
Qed.

Lemma exercise_flags_consistent_witness :
  exercise_flag_rule (fun s => 90 - s)%R "A" (1 / 2)
    (exp (- (5 / 100) * (1 / 2))) 4
    (calculate_all_nodes_for_puts "A" 90 100 2 (1 / 2) (1 / 2) 4 (1 / 2)
       (5 / 100)) 2 1
  /\ exercise_flag_rule (fun s => s - 90)%R "A" (1 / 2)
       (exp (- (5 / 100) * (1 / 2))) 4
       (calculate_all_nodes_for_calls "A" 90 100 2 (1 / 2) (1 / 2) 4 (1 / 2)
          (5 / 100)) 2 1.
Proof.
  apply (exercise_flags_consistent "A" 90 100 2 (1 / 2) (1 / 2) 4 (1 / 2)
           (5 / 100) 2 1).
  unfold in_lattice. lia.
Defined.

(** C7. With a probability in [[0, 1]], at every node the value of the
    American run (style ["A"]) is at least the value of a European run
    (any other style) on the same parameters, for puts and for calls. *)
Theorem american_dominates_european
    (style : string) (strike current_price up down q : R) (steps : Z)
    (delta_time interest_rate : R) (i j : Z) :
  style <> "A"%string ->
  (0 <= q <= 1)%R ->
  in_lattice steps i j ->
  (exists a e : R,
      value_of (calculate_all_nodes_for_puts "A" strike current_price up
                  down q steps delta_time interest_rate) i j = Some a
      /\ value_of (calculate_all_nodes_for_puts style strike current_price up
                     down q steps delta_time interest_rate) i j = Some e
      /\ (e <= a)%R)
  /\ (exists a e : R,
         value_of (calculate_all_nodes_for_calls "A" strike current_price up
                     down q steps delta_time interest_rate) i j = Some a
         /\ value_of (calculate_all_nodes_for_calls style strike current_price
                        up down q steps delta_time interest_rate) i j = Some e
         /\ (e <= a)%R).
Proof.
  intros Hs Hq Hin.
  assert (forall payoff : R -> R,
             (value_at payoff style current_price up down q steps delta_time
                interest_rate i j
              <= value_at payoff "A" current_price up down q steps delta_time
                   interest_rate i j)%R) as Hle.
  { intros payoff. unfold value_at.
    rewrite node_stored_european by assumption.
    eapply Rle_trans; [|apply node_stored_ge].
    now apply floored_value_american. }
  split; do 2 eexists;
    (split; [now apply value_of_node|]);
    (split; [now apply value_of_node|]); apply Hle.
Qed.

Lemma american_dominates_european_witness :
  (exists a e : R,
      value_of (calculate_all_nodes_for_puts "A" 90 100 2 (1 / 2) (1 / 2) 4
                  (1 / 2) (5 / 100)) 2 1 = Some a
      /\ value_of (calculate_all_nodes_for_puts "E" 90 100 2 (1 / 2) (1 / 2) 4
                     (1 / 2) (5 / 100)) 2 1 = Some e
      /\ (e <= a)%R)
  /\ (exists a e : R,
         value_of (calculate_all_nodes_for_calls "A" 90 100 2 (1 / 2) (1 / 2)
                     4 (1 / 2) (5 / 100)) 2 1 = Some a
         /\ value_of (calculate_all_nodes_for_calls "E" 90 100 2 (1 / 2)
                        (1 / 2) 4 (1 / 2) (5 / 100)) 2 1 = Some e
         /\ (e <= a)%R).
Proof.
  apply (american_dominates_european "E" 90 100 2 (1 / 2) (1 / 2) 4 (1 / 2)
           (5 / 100) 2 1).
  - discriminate.
  - lra.
  - unfold in_lattice. lia.
Defined.

(** C8. With a probability in [[0, 1]] and all else equal, a larger
    strike gives at every node a put value at least as large and a call
    value at most as large, under any style. *)
Theorem strike_monotonicity
    (style : string) (K1 K2 current_price up down q : R) (steps : Z)
    (delta_time interest_rate : R) (i j : Z) :
  (K1 <= K2)%R ->
  (0 <= q <= 1)%R ->
  in_lattice steps i j ->
  (exists p1 p2 : R,
      value_of (calculate_all_nodes_for_puts style K1 current_price up down q
                  steps delta_time interest_rate) i j = Some p1
      /\ value_of (calculate_all_nodes_for_puts style K2 current_price up down
                     q steps delta_time interest_rate) i j = Some p2
      /\ (p1 <= p2)%R)
  /\ (exists c1 c2 : R,
         value_of (calculate_all_nodes_for_calls style K1 current_price up
                     down q steps delta_time interest_rate) i j = Some c1
         /\ value_of (calculate_all_nodes_for_calls style K2 current_price up
                        down q steps delta_time interest_rate) i j = Some c2
         /\ (c2 <= c1)%R).
Proof.
  intros HK Hq Hin.
  assert (forall pay pay' : R -> R,
             (forall s, (pay s <= pay' s)%R) ->
             (value_at pay style current_price up down q steps delta_time
                interest_rate i j
              <= value_at pay' style current_price up down q steps delta_time
                   interest_rate i j)%R) as Hle.
  { intros pay pay' Hp. unfold value_at.
    apply node_stored_mono; [apply Hp|].
    now apply floored_value_mono. }
  split; do 2 eexists;
    (split; [now apply value_of_node|]);
    (split; [now apply value_of_node|]); apply Hle; intros s.
  - unfold put_payoff. lra.
  - unfold call_payoff. lra.
Qed.

Lemma strike_monotonicity_witness :
  (exists p1 p2 : R,
      value_of (calculate_all_nodes_for_puts "A" 90 100 2 (1 / 2) (1 / 2) 4
                  (1 / 2) (5 / 100)) 2 1 = Some p1
      /\ value_of (calculate_all_nodes_for_puts "A" 110 100 2 (1 / 2) (1 / 2)
                     4 (1 / 2) (5 / 100)) 2 1 = Some p2
      /\ (p1 <= p2)%R)
  /\ (exists c1 c2 : R,
         value_of (calculate_all_nodes_for_calls "A" 90 100 2 (1 / 2) (1 / 2)
                     4 (1 / 2) (5 / 100)) 2 1 = Some c1
         /\ value_of (calculate_all_nodes_for_calls "A" 110 100 2 (1 / 2)
                        (1 / 2) 4 (1 / 2) (5 / 100)) 2 1 = Some c2
         /\ (c2 <= c1)%R).
Proof.
  apply (strike_monotonicity "A" 90 110 100 2 (1 / 2) (1 / 2) 4 (1 / 2)
           (5 / 100) 2 1).
  - lra.
  - lra.
  - unfold in_lattice. lia.
Defined.

(** C9, on real factors and probability.  Every node of either value
    lattice holds a value that is not negative, for any style and any real
    parameters. *)
Theorem values_nonnegative
    (style : string) (strike current_price up down q : R) (steps : Z)
    (delta_time interest_rate : R) (i j : Z) :
  in_lattice steps i j ->
  (exists v : R,
      value_of (calculate_all_nodes_for_puts style strike current_price up
                  down q steps delta_time interest_rate) i j = Some v
      /\ (0 <= v)%R)
  /\ (exists v : R,
         value_of (calculate_all_nodes_for_calls style strike current_price up
                     down q steps delta_time interest_rate) i j = Some v
         /\ (0 <= v)%R).
Proof.
  intros Hin. split; now apply value_of_nonneg.
Qed.

Lemma values_nonnegative_witness :
  (exists v : R,
      value_of (calculate_all_nodes_for_puts "A" 90 100 2 (1 / 2) (- 3) 4
                  (1 / 2) (5 / 100)) 2 1 = Some v
      /\ (0 <= v)%R)
  /\ (exists v : R,
         value_of (calculate_all_nodes_for_calls "A" 90 100 2 (1 / 2) (- 3) 4
                     (1 / 2) (5 / 100)) 2 1 = Some v
         /\ (0 <= v)%R).
Proof.
  apply (values_nonnegative "A" 90 100 2 (1 / 2) (- 3) 4 (1 / 2) (5 / 100)
           2 1).
  unfold in_lattice. lia.
Defined.

(** C10. The style is compared with ["A"] and nothing else: under any
    other string both methods return, without raising, exactly what they
    return under ["E"], and the constructor raises under that string
    exactly when it raises under ["E"]. *)
Theorem style_other_than_A_is_european
    (style : string) (strike current_price up down q : R) (steps : Z)
    (delta_time interest_rate : R) (time_to_maturity volatility
     dividend_yield : R) :
  style <> "A"%string ->
  (exists l,
      calculate_all_nodes_for_puts style strike current_price up down q steps
        delta_time interest_rate = Ok l
      /\ calculate_all_nodes_for_puts "E" strike current_price up down q steps
           delta_time interest_rate = Ok l)
  /\ (exists l,
         calculate_all_nodes_for_calls style strike current_price up down q
           steps delta_time interest_rate = Ok l
         /\ calculate_all_nodes_for_calls "E" strike current_price up down q
              steps delta_time interest_rate = Ok l)
  /\ (forall e : exn,
         BinomialTree_init steps time_to_maturity strike current_price
           volatility interest_rate dividend_yield style = Raise e
         <-> BinomialTree_init steps time_to_maturity strike current_price
               volatility interest_rate dividend_yield "E" = Raise e).
Proof.
  intros Hs. apply String.eqb_neq in Hs.
  assert (forall payoff : R -> R,
             calculate_all_nodes payoff style current_price up down q steps
               delta_time interest_rate
             = calculate_all_nodes payoff "E" current_price up down q steps
                 delta_time interest_rate) as Heq.
  { intros payoff. unfold calculate_all_nodes, value_node.
    rewrite Hs. reflexivity. }
  split; [|split].
  - destruct (calculate_all_nodes_ok (put_payoff strike) "E" current_price up
                down q steps delta_time interest_rate) as [l Hl].
    exists l. unfold calculate_all_nodes_for_puts. rewrite Heq. auto.
  - destruct (calculate_all_nodes_ok (call_payoff strike) "E" current_price
                up down q steps delta_time interest_rate) as [l Hl].
    exists l. unfold calculate_all_nodes_for_calls. rewrite Heq. auto.
  - intros e. destruct (decide (steps = 0)) as [->|Hne].
    + rewrite !BinomialTree_init_zero. tauto.
    + rewrite !BinomialTree_init_nonzero by assumption.
      split; discriminate.
Qed.

Lemma style_other_than_A_is_european_witness :
  (exists l,
      calculate_all_nodes_for_puts "American" 90 100 2 (1 / 2) (1 / 2) 4
        (1 / 2) (5 / 100) = Ok l
      /\ calculate_all_nodes_for_puts "E" 90 100 2 (1 / 2) (1 / 2) 4
           (1 / 2) (5 / 100) = Ok l)
  /\ (exists l,
         calculate_all_nodes_for_calls "American" 90 100 2 (1 / 2) (1 / 2) 4
           (1 / 2) (5 / 100) = Ok l
         /\ calculate_all_nodes_for_calls "E" 90 100 2 (1 / 2) (1 / 2) 4
              (1 / 2) (5 / 100) = Ok l)
  /\ (forall e : exn,
         BinomialTree_init 4 2 90 100 (2 / 10) (5 / 100) 0 "American"
         = Raise e
         <-> BinomialTree_init 4 2 90 100 (2 / 10) (5 / 100) 0 "E" = Raise e).
Proof.
  apply (style_other_than_A_is_european "American" 90 100 2 (1 / 2) (1 / 2)
           4 (1 / 2) (5 / 100) 2 (2 / 10) 0).
  discriminate.
Defined.

(** C3, as the program has it.  With zero volatility and a step count
    other than zero the constructor raises nothing: it returns a pricer
    whose risk-neutral probability is not a finite number. *)
Theorem zero_volatility_constructs_non_finite
    (steps : Z) (time_to_maturity strike current_price interest_rate
     dividend_yield : R) (style : string) :
  steps <> 0 ->
  exists self : BinomialTree,
    BinomialTree_init steps time_to_maturity strike current_price 0
      interest_rate dividend_yield style = Ok self
    /\ self_risk_neutral_probability self = NonFinite.
Proof.
  intros Hne. eexists. split.
  - now apply BinomialTree_init_nonzero.
  - cbn [self_risk_neutral_probability].
    apply risk_neutral_probability_zero_volatility.
Qed.

Lemma zero_volatility_constructs_non_finite_witness :
  exists self : BinomialTree,
    BinomialTree_init 1 1 100 100 0 (5 / 100) 0 "E" = Ok self
    /\ self_risk_neutral_probability self = NonFinite.
Proof.
  apply (zero_volatility_constructs_non_finite 1 1 100 100 (5 / 100) 0 "E").
  lia.
Defined.

(** C3, as stated, fails: with zero volatility the constructor does not
    fail. *)
Lemma zero_volatility_raises_nothing :
  ~ exists e : exn,
      BinomialTree_init 1 1 100 100 0 (5 / 100) 0 "E" = Raise e.
Proof.
  intros [e He].
  rewrite BinomialTree_init_nonzero in He by lia. discriminate He.
Qed.

(** C4, as the program has it.  The constructor validates nothing: it
    raises exactly when the step count is zero, and then the
    [ZeroDivisionError] of [time_to_maturity / steps]; with any other
    step count it returns a pricer that stores the parameters as given. *)
Theorem constructor_raises_only_on_zero_steps
    (steps : Z) (time_to_maturity strike current_price volatility
     interest_rate dividend_yield : R) (style : string) :
  (steps = 0 ->
   BinomialTree_init steps time_to_maturity strike current_price volatility
     interest_rate dividend_yield style = Raise ZeroDivisionError)
  /\ (steps <> 0 ->
      exists self : BinomialTree,
        BinomialTree_init steps time_to_maturity strike current_price
          volatility interest_rate dividend_yield style = Ok self
        /\ self_steps self = steps
        /\ self_delta_time self = (time_to_maturity / IZR steps)%R
        /\ self_strike self = strike
        /\ self_current_price self = current_price
        /\ self_volatility self = volatility).
Proof.
  split.
  - intros ->. apply BinomialTree_init_zero.
  - intros Hne. eexists. split; [now apply BinomialTree_init_nonzero|].
    cbn. repeat split; reflexivity.
Qed.

Lemma constructor_raises_only_on_zero_steps_witness :
  exists self : BinomialTree,
    BinomialTree_init (-4) 0 (-90) (-100) (- (2 / 10)) (5 / 100) 0 "E"
    = Ok self
    /\ self_steps self = -4
    /\ self_delta_time self = (0 / IZR (-4))%R
    /\ self_strike self = (-90)%R
    /\ self_current_price self = (-100)%R
    /\ self_volatility self = (- (2 / 10))%R.
Proof.
  apply (constructor_raises_only_on_zero_steps (-4) 0 (-90) (-100)
           (- (2 / 10)) (5 / 100) 0 "E").
  lia.
Defined.

(** C4, as stated, fails: a spot price that is not positive is accepted. *)
Lemma nonpositive_spot_raises_nothing :
  ~ exists e : exn,
      BinomialTree_init 4 2 90 (-100) (2 / 10) (5 / 100) 0 "E" = Raise e.
Proof.
  intros [e He].
  rewrite BinomialTree_init_nonzero in He by lia. discriminate He.
Qed.

(** ** Put-call parity at the root *)

Local Open Scope R_scope.

Lemma risk_neutral_probability_value (r qd dt sigma : R) :
  0 <= dt ->
  exp (sigma * sqrt dt) - exp (- sigma * sqrt dt) <> 0 ->
  risk_neutral_probability r qd dt (up_down sigma dt).1 (up_down sigma dt).2
    sigma
  = Real ((exp ((r - qd) * dt) - exp (- sigma * sqrt dt))
          / (exp (sigma * sqrt dt) - exp (- sigma * sqrt dt))).
Proof.
  intros Hdt Hne.
  unfold risk_neutral_probability, up_down, np_sqrt. cbn [fst snd].
  destruct (Rlt_dec dt 0); [lra|]. cbn [np_map np_map2 np_div].
  destruct (Req_dec_T _ 0) as [E|NE]; [contradiction|reflexivity].
Qed.

(** The expected one-step growth under the risk-neutral probability. *)
Lemma risk_neutral_growth (g u d : R) :
  u - d <> 0 ->
  let p := (g - d) / (u - d) in
  p * u + (1 - p) * d = g.
Proof. intros H p. unfold p. field. exact H. Qed.

Lemma discounted_forward (S0 K r qd T : R) (N : Z) :
  (1 <= N)%Z ->
  let dt := T / IZR N in
  let n := Z.to_nat N in
  exp (- r * dt) ^ n * (S0 * exp ((r - qd) * dt) ^ n - K)
  = S0 * exp (- qd * T) - K * exp (- r * T).
Proof.
  intros HN dt n. rewrite !exp_pow_nat.
  assert (INR n = IZR N) as ->.
  { unfold n. rewrite INR_IZR_INZ, Z2Nat.id by lia. reflexivity. }
  assert (IZR N <> 0) as HN0.
  { apply not_0_IZR. lia. }
  rewrite Rmult_minus_distr_l.
  replace (exp (IZR N * (- r * dt)) * (S0 * exp (IZR N * ((r - qd) * dt))))
    with (S0 * exp (IZR N * (- r * dt) + IZR N * ((r - qd) * dt)))
    by (rewrite exp_plus; ring).
  replace (IZR N * (- r * dt) + IZR N * ((r - qd) * dt)) with (- qd * T)
    by (unfold dt; field; exact HN0).
  replace (IZR N * (- r * dt)) with (- r * T) by (unfold dt; field; exact HN0).
  ring.
Qed.

(** The probability lies in the unit interval when the growth rate over a
    step lies between the two log-factors. *)
Lemma risk_neutral_probability_unit (y sigma s : R) :
  0 < sigma * s ->
  - (sigma * s) <= y <= sigma * s ->
  0 <= (exp y - exp (- sigma * s)) / (exp (sigma * s) - exp (- sigma * s)) <= 1.
Proof.
  intros Hx Hy.
  replace (- sigma * s) with (- (sigma * s)) by ring.
  set (x := sigma * s) in *.
  assert (exp (- x) < exp x) as Hdu by (apply exp_increasing; lra).
  assert (exp (- x) <= exp y) as Hlo.
  { destruct (Req_dec (- x) y) as [<-|Hne]; [lra|].
    left. apply exp_increasing. lra. }
  assert (exp y <= exp x) as Hhi.
  { destruct (Req_dec y x) as [->|Hne]; [lra|].
    left. apply exp_increasing. lra. }
  assert (0 < / (exp x - exp (- x))) as Hinv
    by (apply Rinv_0_lt_compat; lra).
  unfold Rdiv. split.
  - apply Rmult_le_pos; lra.
  - rewrite <- (Rinv_r (exp x - exp (- x))) by lra.
    apply Rmult_le_compat_r; lra.
Qed.

(** C6. For a pricer built by the constructor with at least one step, a
    style other than ["A"] and a risk-neutral probability that is a real
    number in [[0, 1]], the run returns and its root values satisfy
    put-call parity exactly:
    [call_P[0,0] - put_P[0,0] = S0 * exp(-q*T) - K * exp(-r*T)]. *)
Theorem european_put_call_parity
    (steps : Z) (time_to_maturity strike current_price volatility
     interest_rate dividend_yield : R) (style : string)
    (self : BinomialTree) (p : R) :
  BinomialTree_init steps time_to_maturity strike current_price volatility
    interest_rate dividend_yield style = Ok self ->
  style <> "A"%string ->
  (1 <= steps)%Z ->
  self_risk_neutral_probability self = Real p ->
  0 <= p <= 1 ->
  exists (res : run_results) (c v : R),
    run self = Some (Ok res)
    /\ call_P res !! (0%Z, 0%Z) = Some c
    /\ put_P res !! (0%Z, 0%Z) = Some v
    /\ c - v
       = current_price * exp (- dividend_yield * time_to_maturity)
         - strike * exp (- interest_rate * time_to_maturity).
Proof.
  intros Hinit Hstyle Hsteps Hp Hunit.
  rewrite BinomialTree_init_nonzero in Hinit by lia.
  injection Hinit as <-. cbn [self_risk_neutral_probability] in Hp.
  set (dt := time_to_maturity / IZR steps) in *.
  pose proof (risk_neutral_probability_real _ _ _ _ _ Hp)
    as (Hu & Hd & Hne & Hpv).
  cbv zeta in *.
  set (u := exp (volatility * sqrt dt)) in *.
  set (d := exp (- volatility * sqrt dt)) in *.
  unfold run, real_constants.
  cbn [self_up self_down self_risk_neutral_probability self_strike
       self_current_price self_steps self_delta_time self_interest_rate
       self_american_or_european].
  unfold up_down in Hu, Hd. cbn [fst snd] in Hu, Hd.
  rewrite Hu, Hd in Hp. rewrite Hu, Hd, Hp.
  unfold calculate_all_nodes_for_puts, calculate_all_nodes_for_calls.
  destruct (calculate_all_nodes_rows (put_payoff strike) style current_price
              u d p steps dt interest_rate) as (Sp & P & exp_ & -> & _ & HP).
  destruct (calculate_all_nodes_rows (call_payoff strike) style current_price
              u d p steps dt interest_rate) as (Sc & C & exc & -> & _ & HC).
  cbn [bind fst snd]. do 3 eexists. split; [reflexivity|].
  cbn [call_P put_P].
  destruct (HC 0%Z 0%Z) as [-> _]. destruct (HP 0%Z 0%Z) as [-> _].
  rewrite !decide_True by lia.
  split; [reflexivity|]. split; [reflexivity|].
  unfold value_at. rewrite !node_stored_european by assumption.
  unfold floor_at.
  rewrite floored_value_parity by (assumption || lia).
  rewrite closed_price_root, Z.sub_0_r.
  replace (p * u + (1 - p) * d)
    with (exp ((interest_rate - dividend_yield) * dt))
    by (rewrite Hpv; symmetry; apply risk_neutral_growth; exact Hne).
  now apply discounted_forward.
Qed.

Lemma european_put_call_parity_witness :
  exists (self : BinomialTree) (res : run_results) (c v : R),
    BinomialTree_init 1 1 1 1 1 0 0 "E" = Ok self
    /\ run self = Some (Ok res)
    /\ call_P res !! (0%Z, 0%Z) = Some c
    /\ put_P res !! (0%Z, 0%Z) = Some v
    /\ c - v = 1 * exp (- 0 * 1) - 1 * exp (- 0 * 1).
Proof.
  assert (0 < 1 / IZR 1) as Hdt by lra.
  assert (0 < 1 * sqrt (1 / IZR 1)) as Hx.
  { apply Rmult_lt_0_compat; [lra|]. now apply sqrt_lt_R0. }
  assert (exp (1 * sqrt (1 / IZR 1)) - exp (- 1 * sqrt (1 / IZR 1)) <> 0)
    as Hne.
  { apply Rgt_not_eq, Rlt_0_minus, exp_increasing. lra. }
  destruct (european_put_call_parity 1 1 1 1 1 0 0 "E" _ _
              (BinomialTree_init_nonzero 1 1 1 1 1 0 0 "E" ltac:(lia))
              ltac:(discriminate) ltac:(lia)
              (risk_neutral_probability_value 0 0 _ 1 (Rlt_le _ _ Hdt) Hne)
              (risk_neutral_probability_unit ((0 - 0) * (1 / IZR 1)) 1
                 (sqrt (1 / IZR 1)) Hx ltac:(lra)))
    as (res & c & v & Hrun & Hc & Hv & Hpar).
  eexists _, res, c, v.
  split; [now apply BinomialTree_init_nonzero|].
  repeat split; assumption.
Defined.

(** * Further properties of the program *)

(** ** [up_down] and [risk_neutral_probability] *)

Lemma up_down_real (sigma dt : R) :
  0 <= dt ->
  up_down sigma dt
  = (Real (exp (sigma * sqrt dt)), Real (exp (- sigma * sqrt dt))).
Proof.
  intros Hdt. unfold up_down, np_sqrt.
  destruct (Rlt_dec dt 0); [lra|]. reflexivity.
Qed.

(** X1. For a time step that is not negative the two factors are real,
    positive and reciprocal: [up * down = 1]. *)
Theorem up_down_reciprocal (volatility delta_time : R) :
  0 <= delta_time ->
  exists u d : R,
    up_down volatility delta_time = (Real u, Real d)
    /\ 0 < u /\ 0 < d /\ u * d = 1.
Proof.
  intros Hdt. do 2 eexists. split; [now apply up_down_real|].
  split; [apply exp_pos|]. split; [apply exp_pos|].
  rewrite <- exp_plus, <- exp_0. f_equal. ring.
Qed.

Lemma up_down_reciprocal_witness :
  exists u d : R,
    up_down (2 / 10) (1 / 2) = (Real u, Real d)
    /\ 0 < u /\ 0 < d /\ u * d = 1.
Proof. apply (up_down_reciprocal (2 / 10) (1 / 2)). lra. Defined.

(** X2. With positive volatility and a positive time step the down
    factor is below one and the up factor above. *)
Theorem up_down_ordered (volatility delta_time : R) :
  0 < volatility -> 0 < delta_time ->
  exists u d : R,
    up_down volatility delta_time = (Real u, Real d) /\ d < 1 < u.
Proof.
  intros Hs Hdt. do 2 eexists. split; [apply up_down_real; lra|].
  assert (0 < volatility * sqrt delta_time) as Hx
    by (apply Rmult_lt_0_compat; [assumption|now apply sqrt_lt_R0]).
  rewrite <- exp_0. split; apply exp_increasing; lra.
Qed.

Lemma up_down_ordered_witness :
  exists u d : R,
    up_down (2 / 10) (1 / 2) = (Real u, Real d) /\ d < 1 < u.
Proof. apply (up_down_ordered (2 / 10) (1 / 2)); lra. Defined.

(** With a negative time step the square root is nan and so are both
    factors, whatever the volatility; nothing is raised. *)
Lemma up_down_negative_time (volatility delta_time : R) :
  delta_time < 0 ->
  up_down volatility delta_time = (NonFinite, NonFinite).
Proof.
  intros Hdt. unfold up_down, np_sqrt.
  destruct (Rlt_dec delta_time 0); [reflexivity|lra].
Qed.

Lemma log_factors_differ (sigma dt : R) :
  0 <= dt ->
  exp (sigma * sqrt dt) - exp (- sigma * sqrt dt) = 0
  <-> dt = 0 \/ sigma = 0.
Proof.
  intros Hdt. split.
  - intros H. apply Rminus_diag_uniq, exp_inv in H.
    assert (sigma * sqrt dt = 0) as H0 by lra.
    apply Rmult_integral in H0 as [Hs|Hr]; [now right|left].
    now apply sqrt_eq_0.
  - intros [->| ->].
    + rewrite sqrt_0, !Rmult_0_r. lra.
    + rewrite Ropp_0, !Rmult_0_l. lra.
Qed.

(** X3. On the factors of [up_down] the probability is inf or nan exactly
    when the time step is negative or zero or the volatility is zero. *)
Theorem probability_non_finite_iff
    (interest_rate dividend_yield delta_time volatility : R) :
  risk_neutral_probability interest_rate dividend_yield delta_time
    (up_down volatility delta_time).1 (up_down volatility delta_time).2
    volatility = NonFinite
  <-> delta_time < 0 \/ delta_time = 0 \/ volatility = 0.
Proof.
  destruct (Rlt_dec delta_time 0) as [Hneg|Hpos].
  - rewrite up_down_negative_time by assumption. cbn. tauto.
  - rewrite up_down_real by lra. cbn [fst snd].
    unfold risk_neutral_probability. cbn [np_map2 np_div].
    pose proof (log_factors_differ volatility delta_time ltac:(lra)) as Hd.
    destruct (Req_dec_T _ 0) as [E|NE].
    + split; [intros _; right; tauto|reflexivity].
    + split; [discriminate|]. intros [H|H]; [lra|]. tauto.
Qed.

(** X4. For any two real factors that differ, the probability makes the
    expected one-step growth equal to [exp((r - q) * delta_time)]. *)
Theorem probability_is_risk_neutral
    (interest_rate dividend_yield delta_time u d volatility p : R) :
  risk_neutral_probability interest_rate dividend_yield delta_time
    (Real u) (Real d) volatility = Real p ->
  p * u + (1 - p) * d
  = exp ((interest_rate - dividend_yield) * delta_time).
Proof.
  unfold risk_neutral_probability. cbn [np_map2 np_div].
  destruct (Req_dec_T _ 0) as [E|NE]; [discriminate|].
  intros [= <-]. now apply risk_neutral_growth.
Qed.

Lemma probability_is_risk_neutral_witness :
  exists p : R,
    risk_neutral_probability 0 0 1 (Real 2) (Real (1 / 2)) 1 = Real p
    /\ p * 2 + (1 - p) * (1 / 2) = exp ((0 - 0) * 1).
Proof.
  assert (risk_neutral_probability 0 0 1 (Real 2) (Real (1 / 2)) 1
          = Real ((exp ((0 - 0) * 1) - 1 / 2) / (2 - 1 / 2))) as H.
  { unfold risk_neutral_probability. cbn [np_map2 np_div].
    destruct (Req_dec_T _ 0) as [E|NE]; [lra|reflexivity]. }
  eexists. split; [exact H|].
  exact (probability_is_risk_neutral 0 0 1 2 (1 / 2) 1 _ H).
Defined.

(** X5. With positive volatility and a positive time step the probability
    is a real number, and it lies in [[0, 1]] exactly when the drift over a
    step lies between the two log-factors:
    [- sigma * sqrt dt <= (r - q) * dt <= sigma * sqrt dt]. *)
Theorem probability_unit_iff
    (interest_rate dividend_yield delta_time volatility : R) :
  0 < volatility -> 0 < delta_time ->
  exists p : R,
    risk_neutral_probability interest_rate dividend_yield delta_time
      (up_down volatility delta_time).1 (up_down volatility delta_time).2
      volatility = Real p
    /\ (0 <= p <= 1
        <-> - (volatility * sqrt delta_time)
            <= (interest_rate - dividend_yield) * delta_time
            <= volatility * sqrt delta_time).
Proof.
  intros Hs Hdt.
  assert (0 < volatility * sqrt delta_time) as Hx
    by (apply Rmult_lt_0_compat; [assumption|now apply sqrt_lt_R0]).
  assert (exp (- volatility * sqrt delta_time)
          < exp (volatility * sqrt delta_time)) as Hud
    by (apply exp_increasing; lra).
  eexists. split.
  { apply risk_neutral_probability_value; lra. }
  set (y := (interest_rate - dividend_yield) * delta_time) in *.
  split.
  - intros [H0 H1].
    assert (0 < exp (volatility * sqrt delta_time)
                - exp (- volatility * sqrt delta_time)) as Hpos by lra.
    apply (Rmult_le_compat_r _ _ _ (Rlt_le _ _ Hpos)) in H0, H1.
    unfold Rdiv in H0, H1.
    rewrite Rmult_assoc, Rinv_l, Rmult_1_r in H0, H1 by lra.
    rewrite Rmult_0_l in H0. rewrite Rmult_1_l in H1.
    split.
    + destruct (Rle_dec (- (volatility * sqrt delta_time)) y) as [|Hn];
        [assumption|].
      assert (exp y < exp (- volatility * sqrt delta_time))
        by (apply exp_increasing; lra). lra.
    + destruct (Rle_dec y (volatility * sqrt delta_time)) as [|Hn];
        [assumption|].
      assert (exp (volatility * sqrt delta_time) < exp y)
        by (apply exp_increasing; lra). lra.
  - intros Hy. apply risk_neutral_probability_unit; assumption.
Qed.

Lemma probability_unit_iff_witness :
  exists p : R,
    risk_neutral_probability (5 / 100) 0 (1 / 2)
      (up_down (2 / 10) (1 / 2)).1 (up_down (2 / 10) (1 / 2)).2 (2 / 10)
    = Real p
    /\ (0 <= p <= 1
        <-> - (2 / 10 * sqrt (1 / 2)) <= (5 / 100 - 0) * (1 / 2)
            <= 2 / 10 * sqrt (1 / 2)).
Proof.
  apply (probability_unit_iff (5 / 100) 0 (1 / 2) (2 / 10)); lra.
Defined.

(** ** The keys of the three dictionaries *)

Local Open Scope Z_scope.

Section Keys.
Variables (payoff : R -> R) (style : string).
Variables (S0 u d q : R) (steps : Z) (dt r : R).

Let res := calculate_all_nodes payoff style S0 u d q steps dt r.

Lemma price_of_is_Some (i j : Z) :
  is_Some (price_of res i j) <-> in_lattice (Z.max steps 0) i j.
Proof.
  destruct (calculate_all_nodes_rows payoff style S0 u d q steps dt r)
    as (S & P & ex & E & HS & _).
  unfold res, in_lattice. rewrite E. cbn [price_of]. rewrite HS.
  case_decide as H; split.
  - intros _. lia.
  - intros _. eauto.
  - intros [x Hx]. discriminate Hx.
  - intros H'. exfalso. apply H. lia.
Qed.

Lemma value_of_is_Some (i j : Z) :
  is_Some (value_of res i j) <-> in_lattice steps i j.
Proof.
  destruct (calculate_all_nodes_rows payoff style S0 u d q steps dt r)
    as (S & P & ex & E & _ & HP).
  unfold res, in_lattice. rewrite E. cbn [value_of].
  destruct (HP i j) as [-> _].
  case_decide as H; split.
  - intros _. lia.
  - intros _. eauto.
  - intros [x Hx]. discriminate Hx.
  - intros H'. exfalso. apply H. lia.
Qed.

Lemma flag_of_is_Some (i j : Z) :
  is_Some (flag_of res i j) <-> in_lattice steps i j.
Proof.
  destruct (calculate_all_nodes_rows payoff style S0 u d q steps dt r)
    as (S & P & ex & E & _ & HP).
  unfold res, in_lattice. rewrite E. cbn [flag_of].
  destruct (HP i j) as [_ ->].
  case_decide as H; split.
  - intros _. lia.
  - intros _. eauto.
  - intros [x Hx]. discriminate Hx.
  - intros H'. exfalso. apply H. lia.
Qed.
End Keys.

(** X6. The dictionaries of either method hold the lattice nodes and
    nothing else: [P] and [exercise] have the key [(i, j)] exactly when
    [0 <= j <= i <= steps], and [S] exactly when
    [0 <= j <= i <= max steps 0] (the root is always there). *)
Theorem dictionaries_hold_exactly_the_nodes
    (style : string) (strike current_price up down q : R) (steps : Z)
    (delta_time interest_rate : R) (i j : Z) :
  let put := calculate_all_nodes_for_puts style strike current_price up
               down q steps delta_time interest_rate in
  let call := calculate_all_nodes_for_calls style strike current_price up
                down q steps delta_time interest_rate in
  (is_Some (price_of put i j) <-> in_lattice (Z.max steps 0) i j)
  /\ (is_Some (value_of put i j) <-> in_lattice steps i j)
  /\ (is_Some (flag_of put i j) <-> in_lattice steps i j)
  /\ (is_Some (price_of call i j) <-> in_lattice (Z.max steps 0) i j)
  /\ (is_Some (value_of call i j) <-> in_lattice steps i j)
  /\ (is_Some (flag_of call i j) <-> in_lattice steps i j).
Proof.
  cbv zeta. unfold calculate_all_nodes_for_puts, calculate_all_nodes_for_calls.
  repeat match goal with |- _ /\ _ => split end;
    first [ apply price_of_is_Some | apply value_of_is_Some
          | apply flag_of_is_Some ].
Qed.

(** X7. With a negative step count no loop body runs: both methods
    return the one-node price dictionary [{(0, 0): current_price}] and
    empty value and flag dictionaries, without raising. *)
Theorem negative_steps_leave_the_root_only
    (style : string) (strike current_price up down q : R) (steps : Z)
    (delta_time interest_rate : R) :
  steps < 0 ->
  calculate_all_nodes_for_puts style strike current_price up down q steps
    delta_time interest_rate
  = Ok (<[(0, 0) := current_price]> ∅, ∅, ∅)
  /\ calculate_all_nodes_for_calls style strike current_price up down q
       steps delta_time interest_rate
     = Ok (<[(0, 0) := current_price]> ∅, ∅, ∅).
Proof.
  intros H.
  unfold calculate_all_nodes_for_puts, calculate_all_nodes_for_calls,
    calculate_all_nodes, price_lattice.
  rewrite py_range_nil, arange_down_nil by lia.
  split; reflexivity.
Qed.

Lemma negative_steps_leave_the_root_only_witness :
  calculate_all_nodes_for_puts "A" 90 100 2 (1 / 2) (1 / 2) (-3) (1 / 2)
    (5 / 100)
  = Ok (<[(0, 0) := 100%R]> ∅, ∅, ∅)
  /\ calculate_all_nodes_for_calls "A" 90 100 2 (1 / 2) (1 / 2) (-3) (1 / 2)
       (5 / 100)
     = Ok (<[(0, 0) := 100%R]> ∅, ∅, ∅).
Proof.
  apply (negative_steps_leave_the_root_only "A" 90 100 2 (1 / 2) (1 / 2)
           (-3) (1 / 2) (5 / 100)).
  lia.
Defined.

(** X8. No dictionary read of either method ever misses: for every
    style, every real argument and every step count, negative ones
    included, both methods return without [KeyError] or any other
    exception. *)
Theorem lattice_methods_never_raise
    (style : string) (strike current_price up down q : R) (steps : Z)
    (delta_time interest_rate : R) :
  (exists l,
      calculate_all_nodes_for_puts style strike current_price up down q steps
        delta_time interest_rate = Ok l)
  /\ (exists l,
         calculate_all_nodes_for_calls style strike current_price up down q
           steps delta_time interest_rate = Ok l).
Proof.
  split; apply calculate_all_nodes_ok.
Qed.

(** ** Flags and stored values *)

Section Stored.
Variables (payoff : R -> R) (style : string).
Variables (S0 u d q : R) (steps : Z) (dt r : R).

Let res := calculate_all_nodes payoff style S0 u d q steps dt r.

(** The node as the program leaves it: price, floored value, flag and
    stored value in terms of one another. *)
Lemma node_summary (i j : Z) :
  in_lattice steps i j ->
  exists s v : R,
    price_of res i j = Some s
    /\ floored_at payoff q (exp (- r * dt)) steps res i j s v
    /\ flag_of res i j = Some (node_flag payoff s v)
    /\ value_of res i j = Some (node_stored payoff style s v).
Proof.
  intros Hin.
  exists (closed_price S0 u d i j),
         (floor_at payoff style S0 u d q steps dt r i j).
  split; [now apply price_of_node|].
  split; [now apply floored_at_node|].
  split; [now apply flag_of_node|now apply value_of_node].
Qed.
End Stored.

(** X9. At maturity the flag says whether the node is strictly out of
    the money, under any style: a put node is flagged hold exactly when
    its price is above the strike, a call node exactly when its price is
    below; at the money and in the money the flag is exercise. *)
Theorem flags_at_maturity
    (style : string) (strike current_price up down q : R) (steps : Z)
    (delta_time interest_rate : R) (j : Z) :
  0 <= j <= steps ->
  exists s : R,
    price_of (calculate_all_nodes_for_puts style strike current_price up
                down q steps delta_time interest_rate) steps j = Some s
    /\ flag_of (calculate_all_nodes_for_puts style strike current_price up
                  down q steps delta_time interest_rate) steps j
       = Some (if Rlt_dec strike s then hold else exercise)
    /\ flag_of (calculate_all_nodes_for_calls style strike current_price up
                  down q steps delta_time interest_rate) steps j
       = Some (if Rlt_dec s strike then hold else exercise).
Proof.
  intros Hj.
  assert (in_lattice steps steps j) as Hin by (unfold in_lattice; lia).
  exists (closed_price current_price up down steps j).
  unfold calculate_all_nodes_for_puts, calculate_all_nodes_for_calls.
  rewrite price_of_node, !flag_of_node by assumption.
  unfold flag_at. rewrite !floor_at_terminal.
  unfold node_flag, py_max, put_payoff, call_payoff, hold, exercise.
  split; [reflexivity|].
  split; repeat destruct (Rgt_dec _ _); destruct (Rlt_dec _ _);
    try reflexivity; lra.
Qed.

Lemma flags_at_maturity_witness :
  exists s : R,
    price_of (calculate_all_nodes_for_puts "E" 90 100 2 (1 / 2) (1 / 2) 4
                (1 / 2) (5 / 100)) 4 3 = Some s
    /\ flag_of (calculate_all_nodes_for_puts "E" 90 100 2 (1 / 2) (1 / 2) 4
                  (1 / 2) (5 / 100)) 4 3
       = Some (if Rlt_dec 90 s then hold else exercise)
    /\ flag_of (calculate_all_nodes_for_calls "E" 90 100 2 (1 / 2) (1 / 2) 4
                  (1 / 2) (5 / 100)) 4 3
       = Some (if Rlt_dec s 90 then hold else exercise).
Proof.
  apply (flags_at_maturity "E" 90 100 2 (1 / 2) (1 / 2) 4 (1 / 2) (5 / 100)
           3).
  lia.
Defined.

(** X10. Under style ["A"] every node stores the larger of its floored
    value (floored payoff at maturity, floored discounted continuation
    before) and its intrinsic value, so no stored value is below the
    intrinsic value. *)
Theorem american_value_is_max_with_intrinsic
    (strike current_price up down q : R) (steps : Z)
    (delta_time interest_rate : R) (i j : Z) :
  in_lattice steps i j ->
  let disc := exp (- interest_rate * delta_time) in
  let put := calculate_all_nodes_for_puts "A" strike current_price up down
               q steps delta_time interest_rate in
  let call := calculate_all_nodes_for_calls "A" strike current_price up down
                q steps delta_time interest_rate in
  exists s vp vc : R,
    price_of put i j = Some s
    /\ price_of call i j = Some s
    /\ floored_at (fun s => strike - s)%R q disc steps put i j s vp
    /\ floored_at (fun s => s - strike)%R q disc steps call i j s vc
    /\ value_of put i j = Some (Rmax vp (strike - s))
    /\ value_of call i j = Some (Rmax vc (s - strike)).
Proof.
  intros Hin disc put call.
  destruct (node_summary (put_payoff strike) "A" current_price up down q
              steps delta_time interest_rate i j Hin)
    as (s & vp & Hs & Hfp & _ & Hvp).
  destruct (node_summary (call_payoff strike) "A" current_price up down q
              steps delta_time interest_rate i j Hin)
    as (s' & vc & Hs' & Hfc & _ & Hvc).
  assert (s' = s) as ->.
  { pose proof (price_of_node (put_payoff strike) "A" current_price up down
                  q steps delta_time interest_rate i j Hin) as H1.
    pose proof (price_of_node (call_payoff strike) "A" current_price up down
                  q steps delta_time interest_rate i j Hin) as H2.
    congruence. }
  exists s, vp, vc.
  rewrite node_stored_american, py_max_Rmax in Hvp, Hvc.
  repeat match goal with |- _ /\ _ => split end; assumption.
Qed.

Lemma american_value_is_max_with_intrinsic_witness :
  let disc := exp (- (5 / 100) * (1 / 2)) in
  let put := calculate_all_nodes_for_puts "A" 90 100 2 (1 / 2) (1 / 2) 4
               (1 / 2) (5 / 100) in
  let call := calculate_all_nodes_for_calls "A" 90 100 2 (1 / 2) (1 / 2) 4
                (1 / 2) (5 / 100) in
  exists s vp vc : R,
    price_of put 2 1 = Some s
    /\ price_of call 2 1 = Some s
    /\ floored_at (fun s => 90 - s)%R (1 / 2) disc 4 put 2 1 s vp
    /\ floored_at (fun s => s - 90)%R (1 / 2) disc 4 call 2 1 s vc
    /\ value_of put 2 1 = Some (Rmax vp (90 - s))
    /\ value_of call 2 1 = Some (Rmax vc (s - 90)).
Proof.
  apply (american_value_is_max_with_intrinsic 90 100 2 (1 / 2) (1 / 2) 4
           (1 / 2) (5 / 100) 2 1).
  unfold in_lattice. lia.
Defined.

(** X11. Under any style a node flagged hold stores its floored value
    unchanged: the override, when it runs, does not alter it. *)
Theorem hold_nodes_keep_the_floored_value
    (style : string) (strike current_price up down q : R) (steps : Z)
    (delta_time interest_rate : R) (i j : Z) :
  in_lattice steps i j ->
  let disc := exp (- interest_rate * delta_time) in
  let put := calculate_all_nodes_for_puts style strike current_price up down
               q steps delta_time interest_rate in
  let call := calculate_all_nodes_for_calls style strike current_price up
                down q steps delta_time interest_rate in
  exists s vp vc : R,
    price_of put i j = Some s
    /\ floored_at (fun s => strike - s)%R q disc steps put i j s vp
    /\ floored_at (fun s => s - strike)%R q disc steps call i j s vc
    /\ (flag_of put i j = Some hold -> value_of put i j = Some vp)
    /\ (flag_of call i j = Some hold -> value_of call i j = Some vc).
Proof.
  intros Hin disc put call.
  destruct (node_summary (put_payoff strike) style current_price up down q
              steps delta_time interest_rate i j Hin)
    as (s & vp & Hs & Hfp & Hgp & Hvp).
  destruct (node_summary (call_payoff strike) style current_price up down q
              steps delta_time interest_rate i j Hin)
    as (s' & vc & Hs' & Hfc & Hgc & Hvc).
  assert (s' = s) as ->.
  { pose proof (price_of_node (put_payoff strike) style current_price up
                  down q steps delta_time interest_rate i j Hin) as H1.
    pose proof (price_of_node (call_payoff strike) style current_price up
                  down q steps delta_time interest_rate i j Hin) as H2.
    congruence. }
  assert (forall (pay : R -> R) (v : R),
             node_flag pay s v = hold -> node_stored pay style s v = v)
    as Hkeep.
  { intros pay v. unfold node_flag, node_stored, hold, py_max.
    destruct (Rgt_dec v (pay s)); [|discriminate]. intros _.
    destruct (String.eqb style "A"); [|reflexivity].
    destruct (Rgt_dec (pay s) v); [lra|reflexivity]. }
  exists s, vp, vc.
  split; [assumption|]. split; [assumption|]. split; [assumption|].
  split.
  - unfold put. unfold calculate_all_nodes_for_puts.
    rewrite Hgp, Hvp. intros [= H]. now rewrite Hkeep.
  - unfold call. unfold calculate_all_nodes_for_calls.
    rewrite Hgc, Hvc. intros [= H]. now rewrite Hkeep.
Qed.

Lemma hold_nodes_keep_the_floored_value_witness :
  let disc := exp (- (5 / 100) * (1 / 2)) in
  let put := calculate_all_nodes_for_puts "A" 90 100 2 (1 / 2) (1 / 2) 4
               (1 / 2) (5 / 100) in
  let call := calculate_all_nodes_for_calls "A" 90 100 2 (1 / 2) (1 / 2) 4
                (1 / 2) (5 / 100) in
  exists s vp vc : R,
    price_of put 2 1 = Some s
    /\ floored_at (fun s => 90 - s)%R (1 / 2) disc 4 put 2 1 s vp
    /\ floored_at (fun s => s - 90)%R (1 / 2) disc 4 call 2 1 s vc
    /\ (flag_of put 2 1 = Some hold -> value_of put 2 1 = Some vp)
    /\ (flag_of call 2 1 = Some hold -> value_of call 2 1 = Some vc).
Proof.
  apply (hold_nodes_keep_the_floored_value "A" 90 100 2 (1 / 2) (1 / 2) 4
           (1 / 2) (5 / 100) 2 1).
  unfold in_lattice. lia.
Defined.

(** ** The price lattice: sharing, recombination, sign *)

Lemma price_rows_unique (S0 u d : R) (n m : Z) (S S' : dict R) :
  price_rows S0 u d n m S -> price_rows S0 u d n m S' -> S = S'.
Proof.
  intros H H'. apply map_eq. intros [i j]. now rewrite H, H'.
Qed.

Lemma closed_price_recombines (S0 u d : R) (i j : Z) :
  (u * d = 1)%R -> 0 <= j <= i ->
  closed_price S0 u d (i + 2) (j + 1) = closed_price S0 u d i j.
Proof.
  intros Hud Hj. replace (i + 2) with (i + 1 + 1) by lia.
  rewrite closed_price_up, closed_price_down by lia.
  rewrite Rmult_assoc, (Rmult_comm d u), Hud. ring.
Qed.

Lemma closed_price_pos (S0 u d : R) (i j : Z) :
  (0 < S0)%R -> (0 < u)%R -> (0 < d)%R -> (0 < closed_price S0 u d i j)%R.
Proof.
  intros H0 Hu Hd. unfold closed_price.
  repeat apply Rmult_lt_0_compat; [assumption| |]; now apply pow_lt.
Qed.

Lemma closed_price_nonneg (S0 u d : R) (i j : Z) :
  (0 <= S0)%R -> (0 <= u)%R -> (0 <= d)%R -> (0 <= closed_price S0 u d i j)%R.
Proof.
  intros H0 Hu Hd. unfold closed_price.
  repeat apply Rmult_le_pos; [assumption| |]; now apply pow_le.
Qed.

Lemma closed_price_mono (S0 S0' u d : R) (i j : Z) :
  (S0 <= S0')%R -> (0 <= u)%R -> (0 <= d)%R ->
  (closed_price S0 u d i j <= closed_price S0' u d i j)%R.
Proof.
  intros H0 Hu Hd. unfold closed_price. rewrite !Rmult_assoc.
  apply Rmult_le_compat_r; [|assumption].
  apply Rmult_le_pos; now apply pow_le.
Qed.

(** X12. When the product of the two factors is one, as it is for the
    factors of [up_down], the price lattice recombines: an up move and a
    down move, in either order, lead back to the same price,
    [S[i+2, j+1] = S[i, j]]. *)
Theorem price_lattice_recombines
    (style : string) (strike current_price up down q : R) (steps : Z)
    (delta_time interest_rate : R) (i j : Z) :
  (up * down = 1)%R ->
  0 <= j <= i -> i + 2 <= steps ->
  exists s : R,
    price_of (calculate_all_nodes_for_puts style strike current_price up
                down q steps delta_time interest_rate) i j = Some s
    /\ price_of (calculate_all_nodes_for_puts style strike current_price up
                   down q steps delta_time interest_rate) (i + 2) (j + 1)
       = Some s.
Proof.
  intros Hud Hj Hi. exists (closed_price current_price up down i j).
  unfold calculate_all_nodes_for_puts.
  rewrite !price_of_node by (unfold in_lattice; lia).
  now rewrite closed_price_recombines.
Qed.

Lemma price_lattice_recombines_witness :
  exists s : R,
    price_of (calculate_all_nodes_for_puts "E" 90 100 2 (1 / 2) (1 / 2) 4
                (1 / 2) (5 / 100)) 1 0 = Some s
    /\ price_of (calculate_all_nodes_for_puts "E" 90 100 2 (1 / 2) (1 / 2) 4
                   (1 / 2) (5 / 100)) (1 + 2) (0 + 1) = Some s.
Proof.
  apply (price_lattice_recombines "E" 90 100 2 (1 / 2) (1 / 2) 4 (1 / 2)
           (5 / 100) 1 0); [lra|lia|lia].
Defined.

(** X13. With a positive spot price and positive factors every price of
    the lattice is positive. *)
Theorem prices_positive
    (style : string) (strike current_price up down q : R) (steps : Z)
    (delta_time interest_rate : R) (i j : Z) :
  (0 < current_price)%R -> (0 < up)%R -> (0 < down)%R ->
  in_lattice steps i j ->
  exists s : R,
    price_of (calculate_all_nodes_for_puts style strike current_price up
                down q steps delta_time interest_rate) i j = Some s
    /\ price_of (calculate_all_nodes_for_calls style strike current_price up
                   down q steps delta_time interest_rate) i j = Some s
    /\ (0 < s)%R.
Proof.
  intros H0 Hu Hd Hin. exists (closed_price current_price up down i j).
  unfold calculate_all_nodes_for_puts, calculate_all_nodes_for_calls.
  rewrite !price_of_node by assumption.
  split; [reflexivity|]. split; [reflexivity|]. now apply closed_price_pos.
Qed.

Lemma prices_positive_witness :
  exists s : R,
    price_of (calculate_all_nodes_for_puts "E" 90 100 2 (1 / 2) (1 / 2) 4
                (1 / 2) (5 / 100)) 3 1 = Some s
    /\ price_of (calculate_all_nodes_for_calls "E" 90 100 2 (1 / 2) (1 / 2) 4
                   (1 / 2) (5 / 100)) 3 1 = Some s
    /\ (0 < s)%R.
Proof.
  apply (prices_positive "E" 90 100 2 (1 / 2) (1 / 2) 4 (1 / 2) (5 / 100)
           3 1); [lra|lra|lra|unfold in_lattice; lia].
Defined.

(** ** [__init__] followed by [run] *)

Lemma run_real_constants (self : BinomialTree) (u d p : R) :
  self_up self = Real u -> self_down self = Real d ->
  self_risk_neutral_probability self = Real p ->
  exists res : run_results,
    run self = Some (Ok res)
    /\ put_S res = call_S res
    /\ forall i j : Z,
         in_lattice (self_steps self) i j ->
         is_Some (put_S res !! (i, j))
         /\ is_Some (put_P res !! (i, j))
         /\ is_Some (put_exercise res !! (i, j))
         /\ is_Some (call_P res !! (i, j))
         /\ is_Some (call_exercise res !! (i, j)).
Proof.
  intros Hu Hd Hp. unfold run, real_constants. rewrite Hu, Hd, Hp.
  unfold calculate_all_nodes_for_puts, calculate_all_nodes_for_calls.
  destruct (calculate_all_nodes_rows (put_payoff (self_strike self))
              (self_american_or_european self) (self_current_price self)
              u d p (self_steps self) (self_delta_time self)
              (self_interest_rate self)) as (Sp & P & xp & -> & HSp & HP).
  destruct (calculate_all_nodes_rows (call_payoff (self_strike self))
              (self_american_or_european self) (self_current_price self)
              u d p (self_steps self) (self_delta_time self)
              (self_interest_rate self)) as (Sc & C & xc & -> & HSc & HC).
  cbn [bind fst snd]. eexists. split; [reflexivity|].
  cbn [put_S call_S put_P call_P put_exercise call_exercise].
  split; [now apply (price_rows_unique _ _ _ _ _ _ _ HSp HSc)|].
  intros i j [Hj Hi].
  destruct (HP i j) as [HPv HPx]. destruct (HC i j) as [HCv HCx].
  cbv zeta in *.
  rewrite HSp, HPv, HPx, HCv, HCx. rewrite !decide_True by lia.
  repeat split; eauto.
Qed.

(** X14. With at least one step, a positive maturity and a positive
    volatility the constructor returns a pricer and [run] on it returns
    without raising; the put and the call price dictionaries are the same
    dictionary, and every node [0 <= j <= i <= steps] is a key of all the
    dictionaries. *)
Theorem valid_parameters_construct_and_run
    (steps : Z) (time_to_maturity strike current_price volatility
     interest_rate dividend_yield : R) (style : string) :
  1 <= steps ->
  (0 < time_to_maturity)%R ->
  (0 < volatility)%R ->
  exists (self : BinomialTree) (res : run_results),
    BinomialTree_init steps time_to_maturity strike current_price volatility
      interest_rate dividend_yield style = Ok self
    /\ run self = Some (Ok res)
    /\ put_S res = call_S res
    /\ forall i j : Z,
         in_lattice steps i j ->
         is_Some (put_S res !! (i, j))
         /\ is_Some (put_P res !! (i, j))
         /\ is_Some (put_exercise res !! (i, j))
         /\ is_Some (call_P res !! (i, j))
         /\ is_Some (call_exercise res !! (i, j)).
Proof.
  intros Hsteps HT Hsigma.
  assert (0 < time_to_maturity / IZR steps)%R as Hdt.
  { apply Rdiv_lt_0_compat; [assumption|]. apply IZR_lt. lia. }
  eexists.
  edestruct (run_real_constants
               {| self_steps := steps;
                  self_delta_time := (time_to_maturity / IZR steps)%R;
                  self_strike := strike;
                  self_current_price := current_price;
                  self_volatility := volatility;
                  self_interest_rate := interest_rate;
                  self_american_or_european := style;
                  self_up := (up_down volatility
                                (time_to_maturity / IZR steps)).1;
                  self_down := (up_down volatility
                                  (time_to_maturity / IZR steps)).2;
                  self_risk_neutral_probability :=
                    risk_neutral_probability interest_rate dividend_yield
                      (time_to_maturity / IZR steps)
                      (up_down volatility (time_to_maturity / IZR steps)).1
                      (up_down volatility (time_to_maturity / IZR steps)).2
                      volatility |})
    as (res & Hrun & HS & Hkeys).
  - cbn [self_up]. rewrite up_down_real by lra. reflexivity.
  - cbn [self_down]. rewrite up_down_real by lra. reflexivity.
  - cbn [self_risk_neutral_probability].
    apply risk_neutral_probability_value; [lra|].
    intros H. apply log_factors_differ in H; lra.
  - exists res. split; [apply BinomialTree_init_nonzero; lia|].
    split; [exact Hrun|]. split; [exact HS|exact Hkeys].
Qed.

Lemma valid_parameters_construct_and_run_witness :
  exists (self : BinomialTree) (res : run_results),
    BinomialTree_init 4 2 90 100 (2 / 10) (5 / 100) 0 "E" = Ok self
    /\ run self = Some (Ok res)
    /\ put_S res = call_S res
    /\ forall i j : Z,
         in_lattice 4 i j ->
         is_Some (put_S res !! (i, j))
         /\ is_Some (put_P res !! (i, j))
         /\ is_Some (put_exercise res !! (i, j))
         /\ is_Some (call_P res !! (i, j))
         /\ is_Some (call_exercise res !! (i, j)).
Proof.
  apply (valid_parameters_construct_and_run 4 2 90 100 (2 / 10) (5 / 100) 0
           "E"); [lia|lra|lra].
Defined.

(** ** Bounds and monotonicity of the values *)

Local Open Scope R_scope.

Lemma discount_le_1 (r dt : R) : 0 <= r * dt -> exp (- r * dt) <= 1.
Proof.
  intros H. rewrite <- exp_0.
  destruct (Req_dec (- r * dt) 0) as [->|Hne]; [lra|].
  left. apply exp_increasing. lra.
Qed.

Lemma node_stored_mono2 (pay pay' : R -> R) (style : string)
    (s s' v v' : R) :
  pay s <= pay' s' -> v <= v' ->
  node_stored pay style s v <= node_stored pay' style s' v'.
Proof.
  intros Hp Hv. unfold node_stored.
  destruct (String.eqb style "A"); [now apply py_max_mono|assumption].
Qed.

Section ValueBounds.
Variables (u d q dt r : R) (style : string).
Hypothesis Hq : 0 <= q <= 1.

(** A payoff that is larger node by node, possibly on another price
    lattice, gives a larger floored value. *)
Lemma floored_value_mono2 (pay pay' : R -> R) (S0 S0' : R) :
  (forall i j : Z,
      pay (closed_price S0 u d i j) <= pay' (closed_price S0' u d i j)) ->
  forall (k : nat) (i j : Z),
    floored_value pay style S0 u d q dt r k i j
    <= floored_value pay' style S0' u d q dt r k i j.
Proof.
  intros Hp. induction k as [|k IH]; intros i j; cbn [floored_value].
  - apply py_max_mono; [|lra]. apply py_max_mono; [apply Hp|lra].
  - apply py_max_mono; [|lra].
    apply continuation_mono; [apply discount_pos|assumption| |];
      apply node_stored_mono2; auto.
Qed.

(** A put is never worth more than its strike when nothing is negative
    and the discount factor is at most one. *)
Lemma floored_put_le_strike (K S0 : R) :
  0 <= K -> 0 <= r * dt ->
  (forall i j : Z, 0 <= closed_price S0 u d i j) ->
  forall (k : nat) (i j : Z),
    floored_value (put_payoff K) style S0 u d q dt r k i j <= K.
Proof.
  intros HK Hr HS.
  assert (forall s v : R,
             0 <= s -> v <= K -> node_stored (put_payoff K) style s v <= K)
    as Hstored.
  { intros s v Hs Hv. unfold node_stored, put_payoff.
    destruct (String.eqb style "A"); [|assumption]. py_max_cases. }
  induction k as [|k IH]; intros i j; cbn [floored_value].
  - pose proof (HS i j). unfold put_payoff. py_max_cases.
  - pose proof (discount_pos r dt) as Hd0.
    pose proof (discount_le_1 r dt Hr) as Hd1.
    pose proof (Hstored _ _ (HS (i + 1)%Z (j + 1)%Z) (IH (i + 1)%Z (j + 1)%Z))
      as Ha.
    pose proof (Hstored _ _ (HS (i + 1)%Z j) (IH (i + 1)%Z j)) as Hb.
    set (a := node_stored _ _ _ _) in *.
    set (b := node_stored _ _ (closed_price S0 u d (i + 1) j) _) in *.
    assert (exp (- r * dt) * (q * a + (1 - q) * b) <= K).
    { apply Rle_trans with (exp (- r * dt) * K); [|nra].
      apply Rmult_le_compat_l; [lra|]. nra. }
    py_max_cases.
Qed.
End ValueBounds.

(** X15. With a probability in [[0, 1]], a discount factor at most one
    ([interest_rate * delta_time >= 0]) and a spot price, factors and
    strike that are not negative, no node of the put lattice is worth more
    than the strike, under any style. *)
Theorem put_value_at_most_strike
    (style : string) (strike current_price up down q : R) (steps : Z)
    (delta_time interest_rate : R) (i j : Z) :
  0 <= q <= 1 ->
  0 <= interest_rate * delta_time ->
  0 <= strike -> 0 <= current_price -> 0 <= up -> 0 <= down ->
  in_lattice steps i j ->
  exists v : R,
    value_of (calculate_all_nodes_for_puts style strike current_price up
                down q steps delta_time interest_rate) i j = Some v
    /\ v <= strike.
Proof.
  intros Hq Hr HK H0 Hu Hd Hin. eexists.
  split; [now apply value_of_node|].
  unfold value_at, node_stored, floor_at.
  pose proof (closed_price_nonneg current_price up down i j H0 Hu Hd) as Hs.
  pose proof (floored_put_le_strike up down q delta_time interest_rate style
                Hq strike current_price HK Hr
                (fun i j => closed_price_nonneg _ _ _ i j H0 Hu Hd)
                (Z.to_nat (steps - i)) i j) as Hv.
  destruct (String.eqb style "A"); [|assumption].
  revert Hv. generalize (floored_value (put_payoff strike) style
                           current_price up down q delta_time interest_rate
                           (Z.to_nat (steps - i)) i j).
  intros v Hv. unfold put_payoff. py_max_cases.
Qed.

Lemma put_value_at_most_strike_witness :
  exists v : R,
    value_of (calculate_all_nodes_for_puts "A" 90 100 2 (1 / 2) (1 / 2) 4
                (1 / 2) (5 / 100)) 2 1 = Some v
    /\ v <= 90.
Proof.
  apply (put_value_at_most_strike "A" 90 100 2 (1 / 2) (1 / 2) 4 (1 / 2)
           (5 / 100) 2 1); try lra.
  unfold in_lattice. lia.
Defined.

(** X16. With a probability in [[0, 1]], factors that are not negative
    and all else equal, a larger spot price gives at every node a put
    value at most as large and a call value at least as large, under any
    style. *)
Theorem spot_monotonicity
    (style : string) (strike S1 S2 up down q : R) (steps : Z)
    (delta_time interest_rate : R) (i j : Z) :
  S1 <= S2 ->
  0 <= up -> 0 <= down ->
  0 <= q <= 1 ->
  in_lattice steps i j ->
  (exists p1 p2 : R,
      value_of (calculate_all_nodes_for_puts style strike S1 up down q steps
                  delta_time interest_rate) i j = Some p1
      /\ value_of (calculate_all_nodes_for_puts style strike S2 up down q
                     steps delta_time interest_rate) i j = Some p2
      /\ p2 <= p1)
  /\ (exists c1 c2 : R,
         value_of (calculate_all_nodes_for_calls style strike S1 up down q
                     steps delta_time interest_rate) i j = Some c1
         /\ value_of (calculate_all_nodes_for_calls style strike S2 up down q
                        steps delta_time interest_rate) i j = Some c2
         /\ c1 <= c2).
Proof.
  intros HS Hu Hd Hq Hin.
  pose proof (fun a b => closed_price_mono S1 S2 up down a b HS Hu Hd) as Hcp.
  split; do 2 eexists;
    (split; [now apply value_of_node|]);
    (split; [now apply value_of_node|]);
    unfold value_at, floor_at;
    (apply node_stored_mono2;
     [|apply floored_value_mono2; [assumption|intros a b]]);
    unfold put_payoff, call_payoff;
    pose proof (Hcp i j); try pose proof (Hcp a b); lra.
Qed.

Lemma spot_monotonicity_witness :
  (exists p1 p2 : R,
      value_of (calculate_all_nodes_for_puts "A" 90 100 2 (1 / 2) (1 / 2) 4
                  (1 / 2) (5 / 100)) 2 1 = Some p1
      /\ value_of (calculate_all_nodes_for_puts "A" 90 120 2 (1 / 2) (1 / 2)
                     4 (1 / 2) (5 / 100)) 2 1 = Some p2
      /\ p2 <= p1)
  /\ (exists c1 c2 : R,
         value_of (calculate_all_nodes_for_calls "A" 90 100 2 (1 / 2) (1 / 2)
                     4 (1 / 2) (5 / 100)) 2 1 = Some c1
         /\ value_of (calculate_all_nodes_for_calls "A" 90 120 2 (1 / 2)
                        (1 / 2) 4 (1 / 2) (5 / 100)) 2 1 = Some c2
         /\ c1 <= c2).
Proof.
  apply (spot_monotonicity "A" 90 100 120 2 (1 / 2) (1 / 2) 4 (1 / 2)
           (5 / 100) 2 1); try lra.
  unfold in_lattice. lia.
Defined.

(** ** No early exercise of a call without dividends *)

Lemma pow_le_1_compat (x : R) (k : nat) : 0 <= x <= 1 -> x ^ k <= 1.
Proof.
  intros Hx. rewrite <- (pow1 k). now apply pow_incr.
Qed.

Section NoEarlyExercise.
Variables (K S0 u d q dt r : R) (style : string).
Hypothesis Hq : 0 <= q <= 1.
Hypothesis Hstyle : style <> "A"%string.
Hypothesis Hmartingale : exp (- r * dt) * (q * u + (1 - q) * d) = 1.
Hypothesis Hr : 0 <= r * dt.
Hypothesis HK : 0 <= K.

Let disc := exp (- r * dt).

(** The European call is worth at least the price less the discounted
    strike. *)
Lemma european_call_lower_bound (k : nat) :
  forall i j : Z,
    (0 <= j <= i)%Z ->
    closed_price S0 u d i j - K * disc ^ k
    <= floored_value (call_payoff K) style S0 u d q dt r k i j.
Proof.
  induction k as [|k IH]; intros i j Hj; cbn [floored_value pow].
  - unfold call_payoff. py_max_cases.
  - rewrite !(node_stored_european _ style) by assumption.
    eapply Rle_trans; [|apply py_max_l]. fold disc.
    pose proof (IH (i + 1)%Z (j + 1)%Z ltac:(lia)) as Hu.
    pose proof (IH (i + 1)%Z j ltac:(lia)) as Hd.
    rewrite closed_price_up in Hu by lia.
    rewrite closed_price_down in Hd by lia.
    eapply Rle_trans;
      [|apply continuation_mono;
        [apply discount_pos|exact Hq|exact Hu|exact Hd]].
    fold disc. apply Req_le.
    transitivity (closed_price S0 u d i j * (disc * (q * u + (1 - q) * d))
                  - K * (disc * disc ^ k)); [|ring].
    unfold disc. rewrite Hmartingale. ring.
Qed.

Lemma european_call_ge_intrinsic (k : nat) (i j : Z) :
  (0 <= j <= i)%Z ->
  call_payoff K (closed_price S0 u d i j)
  <= floored_value (call_payoff K) style S0 u d q dt r k i j.
Proof.
  intros Hj. eapply Rle_trans; [|now apply european_call_lower_bound].
  assert (disc ^ k <= 1) as Hd.
  { apply pow_le_1_compat. split; [left; apply discount_pos|].
    now apply discount_le_1. }
  unfold call_payoff. nra.
Qed.

(** So the override never binds, and the two styles agree. *)
Lemma american_call_floor (k : nat) :
  forall i j : Z,
    (0 <= j <= i)%Z ->
    floored_value (call_payoff K) "A" S0 u d q dt r k i j
    = floored_value (call_payoff K) style S0 u d q dt r k i j.
Proof.
  induction k as [|k IH]; intros i j Hj; cbn [floored_value].
  - reflexivity.
  - rewrite !(node_stored_european _ style) by assumption.
    rewrite !node_stored_american.
    rewrite !IH by lia.
    rewrite (py_max_id _ (call_payoff K (closed_price S0 u d (i + 1) (j + 1))))
      by (apply european_call_ge_intrinsic; lia).
    rewrite (py_max_id _ (call_payoff K (closed_price S0 u d (i + 1) j)))
      by (apply european_call_ge_intrinsic; lia).
    reflexivity.
Qed.
End NoEarlyExercise.

(** X17. When [q] is the probability that [risk_neutral_probability]
    computes for a zero dividend yield and lies in [[0, 1]], the discount
    factor is at most one and the strike is not negative, the override
    never changes a call value: at every node the call under style ["A"]
    is worth exactly what it is worth under any other style. *)
Theorem american_call_without_dividends
    (style : string) (strike current_price u d q volatility : R) (steps : Z)
    (delta_time interest_rate : R) (i j : Z) :
  style <> "A"%string ->
  risk_neutral_probability interest_rate 0 delta_time (Real u) (Real d)
    volatility = Real q ->
  0 <= q <= 1 ->
  0 <= interest_rate * delta_time ->
  0 <= strike ->
  in_lattice steps i j ->
  exists v : R,
    value_of (calculate_all_nodes_for_calls "A" strike current_price u d q
                steps delta_time interest_rate) i j = Some v
    /\ value_of (calculate_all_nodes_for_calls style strike current_price u
                   d q steps delta_time interest_rate) i j = Some v.
Proof.
  intros Hstyle Hp Hq Hr HK Hin.
  assert (exp (- interest_rate * delta_time) * (q * u + (1 - q) * d) = 1)
    as Hm.
  { revert Hp. unfold risk_neutral_probability. cbn [np_map2 np_div].
    destruct (Req_dec_T _ 0) as [E|NE]; [discriminate|].
    intros [= <-]. rewrite risk_neutral_growth by exact NE.
    rewrite <- exp_plus, <- exp_0. f_equal. ring. }
  eexists. unfold calculate_all_nodes_for_calls.
  rewrite !value_of_node by assumption.
  split; [reflexivity|]. f_equal.
  destruct Hin as [Hj Hi]. unfold value_at, floor_at.
  rewrite (node_stored_european _ style) by assumption.
  rewrite node_stored_american.
  rewrite (american_call_floor strike current_price u d q delta_time
             interest_rate style Hq Hstyle Hm Hr HK) by assumption.
  symmetry. apply py_max_id.
  now apply european_call_ge_intrinsic.
Qed.

Lemma american_call_without_dividends_witness :
  exists v : R,
    value_of (calculate_all_nodes_for_calls "A" 90 100 2 (1 / 2)
                ((exp ((0 - 0) * 1) - 1 / 2) / (2 - 1 / 2)) 4 1 0) 2 1
    = Some v
    /\ value_of (calculate_all_nodes_for_calls "E" 90 100 2 (1 / 2)
                   ((exp ((0 - 0) * 1) - 1 / 2) / (2 - 1 / 2)) 4 1 0) 2 1
       = Some v.
Proof.
  assert (exp ((0 - 0) * 1) = 1) as He.
  { rewrite <- exp_0. f_equal. ring. }
  apply (american_call_without_dividends "E" 90 100 2 (1 / 2)
           ((exp ((0 - 0) * 1) - 1 / 2) / (2 - 1 / 2)) 1 4 1 0 2 1).
  - discriminate.
  - unfold risk_neutral_probability. cbn [np_map2 np_div].
    destruct (Req_dec_T _ 0) as [E|NE]; [lra|reflexivity].
  - rewrite He. lra.
  - lra.
  - lra.
  - unfold in_lattice. lia.
Defined.

(** ** The number of entries *)

Local Open Scope Z_scope.

Lemma elem_of_lattice_row (i : nat) (a b : Z) :
  (a, b) ∈ lattice_row i <-> a = Z.of_nat i /\ 0 <= b <= a.
Proof.
  unfold lattice_row. rewrite list_elem_of_fmap. split.
  - intros (j & [= -> ->] & Hj). apply elem_of_seqZ in Hj. lia.
  - intros [-> Hb]. exists b. split; [reflexivity|].
    apply elem_of_seqZ. lia.
Qed.

Lemma elem_of_lattice_nodes (n : nat) (a b : Z) :
  (a, b) ∈ lattice_nodes n <-> 0 <= b <= a /\ a <= Z.of_nat n.
Proof.
  induction n as [|n IH]; cbn [lattice_nodes].
  - rewrite elem_of_lattice_row. lia.
  - rewrite elem_of_app, IH, elem_of_lattice_row. lia.
Qed.

Lemma NoDup_lattice_row (i : nat) : NoDup (lattice_row i).
Proof.
  unfold lattice_row. apply NoDup_fmap_2; [|apply NoDup_seqZ].
  intros x y [= ->]. reflexivity.
Qed.

Lemma NoDup_lattice_nodes (n : nat) : NoDup (lattice_nodes n).
Proof.
  induction n as [|n IH]; cbn [lattice_nodes].
  - apply NoDup_lattice_row.
  - apply NoDup_app. split; [assumption|]. split; [|apply NoDup_lattice_row].
    intros [a b] Hin Hrow. apply elem_of_lattice_nodes in Hin.
    apply elem_of_lattice_row in Hrow. lia.
Qed.

Lemma length_lattice_nodes (n : nat) :
  (2 * length (lattice_nodes n) = (n + 1) * (n + 2))%nat.
Proof.
  induction n as [|n IH]; cbn [lattice_nodes].
  - reflexivity.
  - rewrite length_app. unfold lattice_row at 1.
    rewrite length_fmap, length_seqZ. lia.
Qed.

(** A dictionary whose keys are the nodes of a lattice of [N] steps has
    [(N + 1) * (N + 2) / 2] entries. *)
Lemma lattice_dict_size {V : Type} (m : dict V) (N : Z) :
  0 <= N ->
  (forall i j : Z, is_Some (m !! (i, j)) <-> in_lattice N i j) ->
  2 * Z.of_nat (size m) = (N + 1) * (N + 2).
Proof.
  intros HN Hkeys.
  assert (dom m = list_to_set (lattice_nodes (Z.to_nat N))) as Hdom.
  { apply set_eq. intros [a b].
    rewrite elem_of_dom, elem_of_list_to_set, elem_of_lattice_nodes, Hkeys.
    unfold in_lattice. lia. }
  rewrite <- size_dom, Hdom, size_list_to_set by apply NoDup_lattice_nodes.
  pose proof (length_lattice_nodes (Z.to_nat N)). lia.
Qed.

Lemma calculate_all_nodes_sizes (payoff : R -> R) (style : string)
    (S0 u d q : R) (steps : Z) (dt r : R) :
  0 <= steps ->
  exists (S P : dict R) (ex : dict string),
    calculate_all_nodes payoff style S0 u d q steps dt r = Ok (S, P, ex)
    /\ 2 * Z.of_nat (size S) = (steps + 1) * (steps + 2)
    /\ 2 * Z.of_nat (size P) = (steps + 1) * (steps + 2)
    /\ 2 * Z.of_nat (size ex) = (steps + 1) * (steps + 2).
Proof.
  intros Hsteps.
  pose proof (price_of_is_Some payoff style S0 u d q steps dt r) as HS.
  pose proof (value_of_is_Some payoff style S0 u d q steps dt r) as HP.
  pose proof (flag_of_is_Some payoff style S0 u d q steps dt r) as Hx.
  destruct (calculate_all_nodes_ok payoff style S0 u d q steps dt r)
    as [[[S P] ex] E].
  rewrite E in HS, HP, Hx. cbn [price_of value_of flag_of] in HS, HP, Hx.
  rewrite Z.max_l in HS by assumption.
  exists S, P, ex. split; [exact E|].
  split; [|split]; now apply lattice_dict_size.
Qed.

(** X18. With a step count that is not negative each of the three
    dictionaries of either method has [(steps + 1) * (steps + 2) / 2]
    entries: row [i] contributes [i + 1] nodes. *)
Theorem dictionaries_have_triangular_size
    (style : string) (strike current_price up down q : R) (steps : Z)
    (delta_time interest_rate : R) :
  0 <= steps ->
  (exists (S P : dict R) (ex : dict string),
      calculate_all_nodes_for_puts style strike current_price up down q steps
        delta_time interest_rate = Ok (S, P, ex)
      /\ 2 * Z.of_nat (size S) = (steps + 1) * (steps + 2)
      /\ 2 * Z.of_nat (size P) = (steps + 1) * (steps + 2)
      /\ 2 * Z.of_nat (size ex) = (steps + 1) * (steps + 2))
  /\ (exists (S P : dict R) (ex : dict string),
         calculate_all_nodes_for_calls style strike current_price up down q
           steps delta_time interest_rate = Ok (S, P, ex)
         /\ 2 * Z.of_nat (size S) = (steps + 1) * (steps + 2)
         /\ 2 * Z.of_nat (size P) = (steps + 1) * (steps + 2)
         /\ 2 * Z.of_nat (size ex) = (steps + 1) * (steps + 2)).
Proof.
  intros Hsteps. split; now apply calculate_all_nodes_sizes.
Qed.

Lemma dictionaries_have_triangular_size_witness :
  (exists (S P : dict R) (ex : dict string),
      calculate_all_nodes_for_puts "E" 90 100 2 (1 / 2) (1 / 2) 4 (1 / 2)
        (5 / 100) = Ok (S, P, ex)
      /\ 2 * Z.of_nat (size S) = (4 + 1) * (4 + 2)
      /\ 2 * Z.of_nat (size P) = (4 + 1) * (4 + 2)
      /\ 2 * Z.of_nat (size ex) = (4 + 1) * (4 + 2))
  /\ (exists (S P : dict R) (ex : dict string),
         calculate_all_nodes_for_calls "E" 90 100 2 (1 / 2) (1 / 2) 4
           (1 / 2) (5 / 100) = Ok (S, P, ex)
         /\ 2 * Z.of_nat (size S) = (4 + 1) * (4 + 2)
         /\ 2 * Z.of_nat (size P) = (4 + 1) * (4 + 2)
         /\ 2 * Z.of_nat (size ex) = (4 + 1) * (4 + 2)).
Proof.
  apply (dictionaries_have_triangular_size "E" 90 100 2 (1 / 2) (1 / 2) 4
           (1 / 2) (5 / 100)).
  lia.
Defined.

(** ** Change of unit *)

Local Open Scope R_scope.

Lemma py_max_scale (c a b : R) :
  0 <= c -> py_max (c * a) (c * b) = c * py_max a b.
Proof.
  intros Hc. unfold py_max.
  destruct (Rgt_dec (c * b) (c * a)), (Rgt_dec b a); try reflexivity; nra.
Qed.

Lemma closed_price_scale (c S0 u d : R) (i j : Z) :
  closed_price (c * S0) u d i j = c * closed_price S0 u d i j.
Proof. unfold closed_price. ring. Qed.

Section Scale.
Variables (c u d q dt r : R) (style : string).
Variables (pay pay' : R -> R).
Hypothesis Hc : 0 < c.
Hypothesis Hpay : forall s : R, pay' (c * s) = c * pay s.

Lemma node_stored_scale (s v : R) :
  node_stored pay' style (c * s) (c * v) = c * node_stored pay style s v.
Proof.
  unfold node_stored. destruct (String.eqb style "A"); [|reflexivity].
  rewrite Hpay. apply py_max_scale. lra.
Qed.

Lemma node_flag_scale (s v : R) :
  node_flag pay' (c * s) (c * v) = node_flag pay s v.
Proof.
  unfold node_flag. rewrite Hpay.
  destruct (Rgt_dec (c * v) (c * pay s)), (Rgt_dec v (pay s));
    try reflexivity; nra.
Qed.

Lemma floored_value_scale (S0 : R) (k : nat) :
  forall i j : Z,
    floored_value pay' style (c * S0) u d q dt r k i j
    = c * floored_value pay style S0 u d q dt r k i j.
Proof.
  induction k as [|k IH]; intros i j; cbn [floored_value].
  - rewrite closed_price_scale, Hpay.
    rewrite <- (Rmult_0_r c) at 1 2.
    rewrite !py_max_scale by lra. reflexivity.
  - rewrite !closed_price_scale, !IH, !node_stored_scale.
    rewrite <- (Rmult_0_r c) at 1.
    rewrite <- py_max_scale by lra. f_equal. ring.
Qed.
End Scale.

(** X19. Quoting spot price and strike in another unit, both multiplied
    by the same positive factor, multiplies every price and every value
    of the lattice by that factor and leaves every flag as it is. *)
Theorem values_scale_with_the_unit
    (style : string) (c strike current_price up down q : R) (steps : Z)
    (delta_time interest_rate : R) (i j : Z) :
  0 < c ->
  in_lattice steps i j ->
  let put := calculate_all_nodes_for_puts style strike current_price up down
               q steps delta_time interest_rate in
  let put' := calculate_all_nodes_for_puts style (c * strike)
                (c * current_price) up down q steps delta_time
                interest_rate in
  let call := calculate_all_nodes_for_calls style strike current_price up
                down q steps delta_time interest_rate in
  let call' := calculate_all_nodes_for_calls style (c * strike)
                 (c * current_price) up down q steps delta_time
                 interest_rate in
  exists s p v : R,
    price_of put i j = Some s /\ price_of put' i j = Some (c * s)
    /\ value_of put i j = Some p /\ value_of put' i j = Some (c * p)
    /\ value_of call i j = Some v /\ value_of call' i j = Some (c * v)
    /\ flag_of put' i j = flag_of put i j
    /\ flag_of call' i j = flag_of call i j.
Proof.
  intros Hc Hin. cbv zeta.
  unfold calculate_all_nodes_for_puts, calculate_all_nodes_for_calls.
  rewrite !price_of_node, !value_of_node, !flag_of_node by assumption.
  assert (forall s, put_payoff (c * strike) (c * s) = c * put_payoff strike s)
    as Hput by (intros s; unfold put_payoff; ring).
  assert (forall s, call_payoff (c * strike) (c * s) = c * call_payoff strike s)
    as Hcall by (intros s; unfold call_payoff; ring).
  do 3 eexists.
  split; [reflexivity|]. split; [now rewrite closed_price_scale|].
  split; [reflexivity|]. split.
  { f_equal. unfold value_at, floor_at.
    rewrite closed_price_scale.
    rewrite (floored_value_scale c up down q delta_time interest_rate style
               (put_payoff strike) _ Hc Hput).
    now apply node_stored_scale. }
  split; [reflexivity|]. split.
  { f_equal. unfold value_at, floor_at.
    rewrite closed_price_scale.
    rewrite (floored_value_scale c up down q delta_time interest_rate style
               (call_payoff strike) _ Hc Hcall).
    now apply node_stored_scale. }
  split; f_equal; unfold flag_at, floor_at; rewrite closed_price_scale.
  - rewrite (floored_value_scale c up down q delta_time interest_rate style
               (put_payoff strike) _ Hc Hput).
    now apply node_flag_scale.
  - rewrite (floored_value_scale c up down q delta_time interest_rate style
               (call_payoff strike) _ Hc Hcall).
    now apply node_flag_scale.
Qed.

Lemma values_scale_with_the_unit_witness :
  let put := calculate_all_nodes_for_puts "A" 90 100 2 (1 / 2) (1 / 2) 4
               (1 / 2) (5 / 100) in
  let put' := calculate_all_nodes_for_puts "A" (100 * 90) (100 * 100) 2
                (1 / 2) (1 / 2) 4 (1 / 2) (5 / 100) in
  let call := calculate_all_nodes_for_calls "A" 90 100 2 (1 / 2) (1 / 2) 4
                (1 / 2) (5 / 100) in
  let call' := calculate_all_nodes_for_calls "A" (100 * 90) (100 * 100) 2
                 (1 / 2) (1 / 2) 4 (1 / 2) (5 / 100) in
  exists s p v : R,
    price_of put 2 1 = Some s /\ price_of put' 2 1 = Some (100 * s)
    /\ value_of put 2 1 = Some p /\ value_of put' 2 1 = Some (100 * p)
    /\ value_of call 2 1 = Some v /\ value_of call' 2 1 = Some (100 * v)
    /\ flag_of put' 2 1 = flag_of put 2 1
    /\ flag_of call' 2 1 = flag_of call 2 1.
Proof.
  apply (values_scale_with_the_unit "A" 100 90 100 2 (1 / 2) (1 / 2) 4
           (1 / 2) (5 / 100) 2 1).
  - lra.
  - unfold in_lattice. lia.
Defined.

(** * The float64 model against the real-number model *)

Local Open Scope Z_scope.

Lemma fmax_Fin (a b : R) : fmax (Fin a) (Fin b) = Fin (py_max a b).
Proof.
  unfold fmax, py_max. cbn [fgt]. destruct (Rgt_dec b a); reflexivity.
Qed.

Lemma fgt_Fin (a b : R) :
  fgt (Fin a) (Fin b) = if Rgt_dec a b then true else false.
Proof. reflexivity. Qed.

Lemma getitem_insert_eq {V : Type} (m : dict V) (k : Z * Z) (x : V) :
  getitem (<[k := x]> m) k = Ok x.
Proof. unfold getitem. now rewrite lookup_insert_eq. Qed.

Lemma getitem_fmap {A B : Type} (f : A -> B) (m : dict A) (k : Z * Z) :
  getitem (f <$> m) k = result_map f (getitem m k).
Proof.
  unfold getitem. rewrite lookup_fmap. destruct (m !! k); reflexivity.
Qed.

(** A loop whose body commutes with a change of representation commutes
    with it as a whole. *)
Lemma for_each_map {A B : Type} (f : A -> B)
    (body : Z -> A -> result A) (body' : Z -> B -> result B) (l : list Z) :
  (forall k a, body' k (f a) = result_map f (body k a)) ->
  forall a, for_each l body' (f a) = result_map f (for_each l body a).
Proof.
  intros Hbody. induction l as [|x l IH]; intros a; cbn [for_each].
  - reflexivity.
  - rewrite Hbody. destruct (body x a) as [a'|e]; cbn [result_map bind].
    + apply IH.
    + reflexivity.
Qed.

Section Finite.
Variables (payoff : R -> R) (payoff' : float64 -> float64).
Hypothesis Hpayoff : forall s : R, payoff' (Fin s) = Fin (payoff s).
Variables (style : string) (S0 u d q : R) (steps : Z) (dt r : R).

Lemma price_node_f64_finite (i j : Z) (S : dict R) :
  price_node_f64 (Fin u) (Fin d) i j (Fin <$> S)
  = result_map (fmap Fin) (price_node u d i j S).
Proof.
  unfold price_node_f64, price_node.
  destruct (0 <? j); rewrite getitem_fmap;
    (destruct (getitem S _) as [s|e]; cbn [result_map bind fmul];
     [rewrite fmap_insert|]; reflexivity).
Qed.

Lemma price_lattice_f64_finite :
  price_lattice_f64 S0 (Fin u) (Fin d) steps
  = result_map (fmap Fin) (price_lattice S0 u d steps).
Proof.
  unfold price_lattice_f64, price_lattice.
  rewrite <- (fmap_empty Fin), <- fmap_insert.
  apply for_each_map. intros i S.
  apply for_each_map. intros j S'. apply price_node_f64_finite.
Qed.

Lemma value_node_f64_finite (S : dict R) (i j : Z)
    (st : dict R * dict string) :
  value_node_f64 payoff' style (Fin <$> S) (Fin q) steps dt r i j
    (lift_state st)
  = result_map lift_state (value_node payoff style S q steps dt r i j st).
Proof.
  destruct st as [P ex]. unfold value_node_f64, value_node, lift_state.
  cbn [fst snd]. rewrite !getitem_fmap.
  destruct (i =? steps).
  - destruct (getitem S (i, j)) as [s|e]; cbn [result_map bind];
      [|reflexivity].
    repeat (rewrite ?getitem_insert_eq, ?Hpayoff, ?fmax_Fin, ?fgt_Fin;
            cbn [bind result_map]).
    destruct (String.eqb style "A");
      repeat (rewrite ?getitem_insert_eq, ?Hpayoff, ?fmax_Fin;
              cbn [bind result_map]);
      rewrite <- !fmap_insert; cbn [fst snd];
      destruct (Rgt_dec _ _); reflexivity.
  - destruct (getitem P (i + 1, j + 1)) as [a|e]; cbn [result_map bind];
      [|reflexivity].
    destruct (getitem P (i + 1, j)) as [b|e]; cbn [result_map bind];
      [|reflexivity].
    cbn [fmul fadd fsub].
    repeat (rewrite ?getitem_insert_eq, ?fmax_Fin; cbn [bind result_map]).
    destruct (getitem S (i, j)) as [s|e]; cbn [result_map bind];
      [|reflexivity].
    rewrite Hpayoff, fgt_Fin.
    destruct (String.eqb style "A");
      repeat (rewrite ?getitem_insert_eq, ?Hpayoff, ?fmax_Fin;
              cbn [bind result_map]);
      rewrite <- !fmap_insert; cbn [fst snd];
      destruct (Rgt_dec _ _); reflexivity.
Qed.

(** On finite factors and probability the float64 method returns the
    result of the real-number method, value for value. *)
Lemma calculate_all_nodes_f64_finite :
  calculate_all_nodes_f64 payoff' style S0 (Fin u) (Fin d) (Fin q) steps dt r
  = result_map lift_lattice
      (calculate_all_nodes payoff style S0 u d q steps dt r).
Proof.
  unfold calculate_all_nodes_f64, calculate_all_nodes.
  rewrite price_lattice_f64_finite.
  destruct (price_lattice S0 u d steps) as [S|e]; cbn [result_map bind];
    [|reflexivity].
  change (∅, ∅) with (lift_state (∅, ∅)) at 1.
  rewrite (for_each_map lift_state
             (fun i => for_each (py_range 0 (i + 1))
                         (value_node payoff style S q steps dt r i))).
  - destruct (for_each _ _ _) as [st|e]; cbn [result_map bind]; reflexivity.
  - intros i st. apply for_each_map. intros j st'.
    apply value_node_f64_finite.
Qed.
End Finite.

(** ** The constructor and [run] in the two models *)

Lemma up_down_f64_coarsen (sigma dt : R) :
  (coarsen (up_down_f64 sigma dt).1, coarsen (up_down_f64 sigma dt).2)
  = up_down sigma dt.
Proof.
  unfold up_down_f64, up_down, np_sqrt. cbn [fst snd fsqrt].
  destruct (Rlt_dec dt 0); reflexivity.
Qed.

Lemma coarsen_signed_inf (x : R) : coarsen (signed_inf x) = NonFinite.
Proof.
  unfold signed_inf. destruct (Req_dec_T x 0); [reflexivity|].
  destruct (Rlt_dec 0 x); reflexivity.
Qed.

Lemma risk_neutral_probability_f64_coarsen (r qd dt sigma : R) :
  coarsen (risk_neutral_probability_f64 r qd dt (up_down_f64 sigma dt).1
             (up_down_f64 sigma dt).2 sigma)
  = risk_neutral_probability r qd dt (up_down sigma dt).1
      (up_down sigma dt).2 sigma.
Proof.
  unfold risk_neutral_probability_f64, risk_neutral_probability, up_down_f64,
    up_down, np_sqrt.
  cbn [fst snd fsqrt].
  destruct (Rlt_dec dt 0); cbn [fmul fexp fsub fdiv np_map np_map2 np_div];
    [reflexivity|].
  destruct (Req_dec_T _ 0); [apply coarsen_signed_inf|reflexivity].
Qed.

(** The constructor above is the float64 constructor with inf and nan no
    longer told apart. *)
Lemma BinomialTree_init_f64_coarsen (steps : Z) (T K S0 sigma r qd : R)
    (style : string) :
  BinomialTree_init steps T K S0 sigma r qd style
  = result_map coarsen_tree
      (BinomialTree_init_f64 steps T K S0 sigma r qd style).
Proof.
  unfold BinomialTree_init, BinomialTree_init_f64, py_truediv.
  destruct (steps =? 0); [reflexivity|]. cbn [bind].
  pose proof (up_down_f64_coarsen sigma (T / IZR steps)) as Hud.
  pose proof (risk_neutral_probability_f64_coarsen r qd (T / IZR steps) sigma)
    as Hp.
  destruct (up_down_f64 sigma (T / IZR steps)) as [u d].
  destruct (up_down sigma (T / IZR steps)) as [u' d'].
  cbn [fst snd] in *. injection Hud as <- <-.
  cbn [result_map]. unfold coarsen_tree.
  cbn [f64_steps f64_delta_time f64_strike f64_current_price f64_volatility
       f64_interest_rate f64_american_or_european f64_up f64_down
       f64_risk_neutral_probability].
  rewrite Hp. reflexivity.
Qed.

(** [run] above is the float64 [run] on the pricers whose factors and
    probability are finite. *)
Lemma run_f64_finite (self : BinomialTree_f64) (u d p : R) :
  f64_up self = Fin u -> f64_down self = Fin d ->
  f64_risk_neutral_probability self = Fin p ->
  exists res : result run_results,
    run (coarsen_tree self) = Some res
    /\ run_f64 self = result_map lift_results res.
Proof.
  intros Hu Hd Hp. unfold run, real_constants, coarsen_tree.
  cbn [self_up self_down self_risk_neutral_probability self_strike
       self_current_price self_steps self_delta_time self_interest_rate
       self_american_or_european].
  rewrite Hu, Hd, Hp. cbn [coarsen]. eexists. split; [reflexivity|].
  unfold run_f64. rewrite Hu, Hd, Hp.
  unfold calculate_all_nodes_for_puts_f64, calculate_all_nodes_for_calls_f64,
    calculate_all_nodes_for_puts, calculate_all_nodes_for_calls.
  rewrite (calculate_all_nodes_f64_finite
             (put_payoff (f64_strike self)) (put_payoff_f64 (f64_strike self)))
    by (intros s; reflexivity).
  rewrite (calculate_all_nodes_f64_finite
             (call_payoff (f64_strike self))
             (call_payoff_f64 (f64_strike self)))
    by (intros s; reflexivity).
  destruct (calculate_all_nodes (put_payoff _) _ _ _ _ _ _ _ _)
    as [[[Sp P] xp]|e]; cbn [result_map bind]; [|reflexivity].
  destruct (calculate_all_nodes (call_payoff _) _ _ _ _ _ _ _ _)
    as [[[Sc C] xc]|e]; cbn [result_map bind]; reflexivity.
Qed.

(** ** A run with zero volatility *)

Lemma fgt_nan_r (a : float64) : fgt a NaN = false.
Proof. destruct a; reflexivity. Qed.

Lemma fmax_nan_l (a : float64) : fmax NaN a = NaN.
Proof. unfold fmax. now rewrite fgt_nan_r. Qed.

Lemma value_node_f64_terminal (payoff : float64 -> float64) (style : string)
    (S : dict float64) (q : float64) (steps : Z) (dt r : R) (j : Z)
    (P : dict float64) (ex : dict string) (s : float64) :
  S !! (steps, j) = Some s ->
  let v := fmax (fmax (payoff s) (Fin 0)) (Fin 0) in
  value_node_f64 payoff style S q steps dt r steps j (P, ex)
  = Ok (<[(steps, j) := node_stored_f64 payoff style s v]> P,
        <[(steps, j) := node_flag_f64 payoff s v]> ex).
Proof.
  intros HS v.
  unfold value_node_f64, getitem, node_stored_f64, node_flag_f64.
  rewrite Z.eqb_refl, HS. cbn [bind].
  destruct (String.eqb style "A");
    repeat (rewrite lookup_insert_eq; cbn [bind]);
    rewrite !insert_insert_eq; reflexivity.
Qed.

Lemma value_node_f64_interior (payoff : float64 -> float64) (style : string)
    (S : dict float64) (q : float64) (steps : Z) (dt r : R) (i j : Z)
    (P : dict float64) (ex : dict string) (s a b : float64) :
  i <> steps ->
  S !! (i, j) = Some s ->
  P !! (i + 1, j + 1) = Some a ->
  P !! (i + 1, j) = Some b ->
  let v := fmax (fmul (Fin (exp (- r * dt)))
                   (fadd (fmul q a) (fmul (fsub (Fin 1) q) b))) (Fin 0) in
  value_node_f64 payoff style S q steps dt r i j (P, ex)
  = Ok (<[(i, j) := node_stored_f64 payoff style s v]> P,
        <[(i, j) := node_flag_f64 payoff s v]> ex).
Proof.
  intros Hi HS Ha Hb v.
  unfold value_node_f64, getitem, node_stored_f64, node_flag_f64.
  apply Z.eqb_neq in Hi. rewrite Hi, Ha, Hb, HS. cbn [bind].
  destruct (String.eqb style "A");
    repeat (rewrite lookup_insert_eq; cbn [bind]);
    rewrite !insert_insert_eq; reflexivity.
Qed.

(** With the probability nan, one step is enough for the root to hold
    nan, flagged ["yes"], whatever the payoff, the style and the two
    factors. *)
Lemma one_step_root_nan (payoff : float64 -> float64) (style : string)
    (S0 : R) (u d : float64) (dt r : R) :
  exists (S P : dict float64) (ex : dict string),
    calculate_all_nodes_f64 payoff style S0 u d NaN 1 dt r = Ok (S, P, ex)
    /\ S !! (0, 0) = Some (Fin S0)
    /\ P !! (0, 0) = Some NaN
    /\ ex !! (0, 0) = Some "yes"%string.
Proof.
  unfold calculate_all_nodes_f64, price_lattice_f64.
  change (py_range 1 (1 + 1)) with [1].
  change (arange_down 1 (-1)) with [1; 0].
  cbn [for_each bind].
  change (py_range 0 (1 + 1)) with [0; 1].
  change (py_range 0 (0 + 1)) with [0].
  cbn [for_each bind].
  unfold price_node_f64.
  change (0 <? 0) with false. change (0 <? 1) with true. cbv iota.
  change (1 - 1) with 0.
  rewrite getitem_insert_eq. cbn [bind].
  unfold getitem at 1.
  rewrite lookup_insert_ne, lookup_insert_eq by discriminate. cbn [bind].
  set (S := <[(1, 1) := _]> _).
  assert (S !! (0, 0) = Some (Fin S0)) as H00.
  { unfold S. rewrite !lookup_insert_ne by discriminate.
    apply lookup_insert_eq. }
  assert (S !! (1, 0) = Some (fmul (Fin S0) d)) as H10.
  { unfold S. rewrite lookup_insert_ne by discriminate.
    apply lookup_insert_eq. }
  assert (S !! (1, 1) = Some (fmul (Fin S0) u)) as H11.
  { unfold S. apply lookup_insert_eq. }
  rewrite (value_node_f64_terminal _ _ _ _ _ _ _ _ _ _ _ H10). cbn [bind].
  rewrite (value_node_f64_terminal _ _ _ _ _ _ _ _ _ _ _ H11). cbn [bind].
  rewrite (value_node_f64_interior _ _ _ _ 1 _ _ 0 0 _ _ _ _ _
             ltac:(discriminate) H00
             ltac:(apply lookup_insert_eq)
             ltac:(rewrite lookup_insert_ne by discriminate;
                   apply lookup_insert_eq)).
  cbn [bind fst snd]. do 3 eexists. split; [reflexivity|].
  split; [exact H00|].
  rewrite !lookup_insert_eq. cbn [fmul fadd].
  unfold node_stored_f64, node_flag_f64.
  rewrite !fmax_nan_l. cbn [fgt].
  split; [|reflexivity].
  destruct (String.eqb style "A"); reflexivity.
Qed.

(** With zero volatility and equal rates the probability is [0 / 0]. *)
Lemma zero_volatility_probability_nan (r dt : R) :
  (0 <= dt)%R ->
  risk_neutral_probability_f64 r r dt (up_down_f64 0 dt).1
    (up_down_f64 0 dt).2 0 = NaN.
Proof.
  intros Hdt. unfold risk_neutral_probability_f64, up_down_f64.
  cbn [fst snd fsqrt]. destruct (Rlt_dec dt 0); [lra|].
  cbn [fmul fexp fsub fdiv].
  assert (exp (0 * sqrt dt) = 1)%R as Hu
    by (rewrite Rmult_0_l; apply exp_0).
  assert (exp (- 0 * sqrt dt) = 1)%R as Hd
    by (rewrite Ropp_0, Rmult_0_l; apply exp_0).
  assert (exp ((r - r) * dt) = 1)%R as Hg
    by (rewrite Rminus_diag, Rmult_0_l; apply exp_0).
  rewrite Hu, Hd, Hg.
  destruct (Req_dec_T (1 - 1) 0) as [_|NE]; [|lra].
  unfold signed_inf. destruct (Req_dec_T (1 - 1) 0) as [_|NE]; [|lra].
  reflexivity.
Qed.

(** The run of the pricer with one step, strike 110, spot 100, zero
    volatility and zero rates, style ["A"]: the constructor and [run]
    return, and the root of the put lattice has price 100, flag ["yes"]
    and value nan. *)
Lemma zero_volatility_run :
  exists (self : BinomialTree_f64) (res : run_results_f64),
    BinomialTree_init_f64 1 1 110 100 0 0 0 "A" = Ok self
    /\ run_f64 self = Ok res
    /\ f64_put_S res !! (0, 0) = Some (Fin 100)
    /\ f64_put_P res !! (0, 0) = Some NaN
    /\ f64_put_exercise res !! (0, 0) = Some "yes"%string.
Proof.
  pose proof (zero_volatility_probability_nan 0 (1 / IZR 1) ltac:(lra))
    as Hp.
  destruct (one_step_root_nan (put_payoff_f64 110) "A" 100
              (up_down_f64 0 (1 / IZR 1)).1 (up_down_f64 0 (1 / IZR 1)).2
              (1 / IZR 1) 0) as (Sp & P & xp & Eput & HS & HP & Hx).
  destruct (one_step_root_nan (call_payoff_f64 110) "A" 100
              (up_down_f64 0 (1 / IZR 1)).1 (up_down_f64 0 (1 / IZR 1)).2
              (1 / IZR 1) 0) as (Sc & C & xc & Ecall & _).
  eexists.
  exists {| f64_put_S := Sp; f64_put_P := P; f64_put_exercise := xp;
            f64_call_S := Sc; f64_call_P := C; f64_call_exercise := xc |}.
  split.
  { unfold BinomialTree_init_f64, py_truediv.
    change (1 =? 0) with false. cbn [bind].
    rewrite (surjective_pairing (up_down_f64 0 (1 / IZR 1))).
    rewrite Hp. reflexivity. }
  unfold run_f64.
  cbn [f64_american_or_european f64_strike f64_current_price f64_up f64_down
       f64_risk_neutral_probability f64_steps f64_delta_time
       f64_interest_rate].
  unfold calculate_all_nodes_for_puts_f64, calculate_all_nodes_for_calls_f64.
  rewrite Eput, Ecall. cbn [bind fst snd]. split; [reflexivity|].
  cbn [f64_put_S f64_put_P f64_put_exercise].
  split; [exact HS|]. split; [exact HP|exact Hx].
Qed.

(** C9, as stated, fails: the constructor accepts zero volatility, and the
    run then stores nan at the root of the put lattice, which is not
    [>= 0]. *)
Lemma zero_volatility_root_value_not_nonnegative :
  exists (self : BinomialTree_f64) (res : run_results_f64) (v : float64),
    BinomialTree_init_f64 1 1 110 100 0 0 0 "A" = Ok self
    /\ run_f64 self = Ok res
    /\ f64_put_P res !! (0, 0) = Some v
    /\ fge v (Fin 0) = false.
Proof.
  destruct zero_volatility_run as (self & res & Hinit & Hrun & _ & HP & _).
  exists self, res, NaN. repeat split; assumption || reflexivity.
Qed.

(** C5, as stated, fails: in the same run, under style ["A"], the root of
    the put lattice is flagged exercise and stores nan, not its intrinsic
    value [110 - 100]. *)
Lemma zero_volatility_exercise_node_not_intrinsic :
  exists (self : BinomialTree_f64) (res : run_results_f64) (s v : float64),
    BinomialTree_init_f64 1 1 110 100 0 0 0 "A" = Ok self
    /\ run_f64 self = Ok res
    /\ f64_put_exercise res !! (0, 0) = Some exercise
    /\ f64_put_S res !! (0, 0) = Some s
    /\ f64_put_P res !! (0, 0) = Some v
    /\ v <> put_payoff_f64 110 s.
Proof.
  destruct zero_volatility_run as (self & res & Hinit & Hrun & HS & HP & Hx).
  exists self, res, (Fin 100), NaN.
  repeat split; try assumption. discriminate.
Qed.
